(** * redstore: a Redis-backed gorilla session store

    A shallow embedding of package [redstore] (NewRedisStore, New, Save,
    save, load, delete, GobSerializer) together with the properties its
    specification states about the session life cycle.

    Conventions of the embedding:
    - a Go [string] and a Go [[]byte] are both a [string] (a list of bytes);
    - a Go [error] is an [option error], [None] being [nil];
    - a Go function returning [(T, error)] returns a [result T] when the
      caller only reads the value on success, and a pair when both parts are
      returned to the caller together (as [New] does);
    - a method with a pointer receiver or pointer argument returns the
      updated object;
    - the [context.Context] argument only carries cancellation; it is left
      out, and a cancelled call shows as an error result of the client. *)

From Stdlib Require Import ZArith Lia Ascii String.
From stdpp Require Import base tactics option list strings gmap.

Local Open Scope Z_scope.

(** ** Errors *)

(** Go compares [err == redis.Nil] by identity with the sentinel, so the
    sentinel is a constructor of its own; any other error value is
    identified by its message. *)
Inductive error : Type :=
| redis_Nil
| errors_New (msg : string).

#[global] Instance error_eq_dec : EqDecision error.
Proof. solve_decision. Defined.

Definition result (A : Type) : Type := (A + error)%type.

(** ** crypto/rand and the identifier generator *)

(** [rand.Reader] as the outcomes of its reads, one per byte asked for:
    [inl v] is the byte read (its value modulo 256), [inr e] a read that
    failed.  A source that has nothing left gives [io.EOF]. *)
Definition Reader : Type := list (Z + error).

Definition io_EOF : error := errors_New "EOF".
Definition io_ErrUnexpectedEOF : error := errors_New "unexpected EOF".

(** [n.BitLen()] of a [big.Int] that is not negative. *)
Definition BitLen (n : Z) : Z := if n <=? 0 then 0 else Z.log2 n + 1.

(** The loop of [rand.Int]: [io.ReadFull] fills [k] bytes, the first is
    masked to [b] bits, the bytes are read as a big-endian number, and a
    number that is not below [max] is thrown away and the read repeated.
    [need] is the number of bytes the current [ReadFull] still wants, [n]
    the number so far.  [ReadFull] turns [io.EOF] after a first byte into
    [io.ErrUnexpectedEOF]. *)
Fixpoint rand_Int_loop (max : Z) (k : nat) (b : Z) (need : nat) (n : Z)
  (rd : Reader) : result Z * Reader :=
  match rd with
  | [] =>
      (inr (if decide (need = k) then io_EOF else io_ErrUnexpectedEOF), [])
  | inr e :: rd' =>
      (inr (if decide (need = k) then e
            else if decide (e = io_EOF) then io_ErrUnexpectedEOF else e),
       rd')
  | inl v :: rd' =>
      let byte :=
        if decide (need = k) then Z.land v (2 ^ b - 1) else v mod 256 in
      let n := n * 256 + byte in
      match need with
      | S (S need') => rand_Int_loop max k b (S need') n rd'
      | _ => if n <? max then (inl n, rd') else rand_Int_loop max k b k 0 rd'
      end
  end.

(** [rand.Int(rand.Reader, max)].  Go panics for [max <= 0]; the one call
    of the repository passes [len(letters)], and the model gives an error
    value there. *)
Definition rand_Int (max : Z) (rd : Reader) : result Z * Reader :=
  if max <=? 0 then
    (inr (errors_New "crypto/rand: argument to Int is <= 0"), rd)
  else
    let bitLen := BitLen (max - 1) in
    if bitLen =? 0 then (inl 0, rd)
    else
      let k := Z.to_nat ((bitLen + 7) / 8) in
      let b := if bitLen mod 8 =? 0 then 8 else bitLen mod 8 in
      rand_Int_loop max k b k 0 rd.

Module DefaultKeyGen.

Definition n : nat := 64.
Definition letters : string :=
  "0123456789ABCDEFGHIJKLMNOPQRSTUVWXYZabcdefghijklmnopqrstuvwxyz-".

(** [letters[i]].  Go panics when the index is out of range;
    [rand_Int] only yields indices in range (lemma [rand_Int_letters]),
    so the default is never read. *)
Definition index (s : string) (i : Z) : ascii :=
  default Ascii.zero (String.get (Z.to_nat i) s).

(** The loop [for i := 0; i < n; i++], with [fuel = n - i].  [ret] is the
    byte slice made by [make([]byte, n)], written in place at [i]. *)
Fixpoint loop (fuel : nat) (i : nat) (ret : list ascii) (rd : Reader)
  : result string * Reader :=
  match fuel with
  | O => (inl (string_of_list_ascii ret), rd)
  | S fuel' =>
      match rand_Int (Z.of_nat (String.length letters)) rd with
      | (inr err, rd') => (inr err, rd')
      | (inl num, rd') => loop fuel' (S i) (<[i := index letters num]> ret) rd'
      end
  end.

(** The function literal that [NewRedisStore] installs as [keyGen]. *)
Definition keyGen (rd : Reader) : result string * Reader :=
  loop n 0 (replicate n Ascii.zero) rd.

(** *** Notions for the statements about the generator *)

(** The indices a run of bytes gives the generator: each byte masked to
    six bits, those equal to 63 thrown away. *)
Definition accepted (s : list Z) : list Z :=
  List.filter (fun j => j <? 63) (List.map (fun v => Z.land v 63) s).

(** [ret] after the loop has written the letters of the indices [w] from
    position [i] on. *)
Fixpoint writes (i : nat) (w : list Z) (ret : list ascii) : list ascii :=
  match w with
  | [] => ret
  | j :: w' => writes (S i) w' (<[i := index letters j]> ret)
  end.

(** The values of a byte, and all runs of [L] bytes. *)
Definition bytes : list Z := seqZ 0 256.

Fixpoint streams (L : nat) : list (list Z) :=
  match L with
  | O => [[]]
  | S L' => List.flat_map (fun v => List.map (cons v) (streams L')) bytes
  end.

(** How many of the [256 ^ L] runs of [L] bytes make the generator return
    [id] having read exactly these bytes.  Under a source whose bytes are
    uniform and independent, the probability that the generator returns
    [id] is the sum over [L] of [count L id / 256 ^ L]. *)
Definition count (L : nat) (id : string) : nat :=
  length
    (List.filter
       (fun s => bool_decide (keyGen (List.map inl s) = (inl id, [])))
       (streams L)).

(** The loop, asked for [m] letters from position [i] on, returns [ret]
    with the letters of [w] written there, having read exactly the bytes
    [s]. *)
Definition hits (m i : nat) (ret : list ascii) (w s : list Z) : bool :=
  bool_decide
    (loop m i ret (List.map inl s) =
     (inl (string_of_list_ascii (writes i w ret)), [])).

(** The number of runs of [L] bytes on which the loop, asking for [m]
    letters, returns [m] given letters having read the whole run: the
    first byte is one of the four that are thrown away, or one of the four
    that give the first letter. *)
Fixpoint ways (L m : nat) : nat :=
  match L, m with
  | O, O => 1
  | O, S _ => 0
  | S L', O => 0
  | S L', S m' => 4 * ways L' (S m') + 4 * ways L' m'
  end.

(** A well-formed identifier: 64 characters of [letters]. *)
Definition is_id (id : string) : Prop :=
  String.length id = n /\
  Forall (fun c => c ∈ list_ascii_of_string letters) (list_ascii_of_string id).

End DefaultKeyGen.

(** ** Signed 64-bit arithmetic and package time *)

Definition wrap64 (z : Z) : Z := (z + 2 ^ 63) mod 2 ^ 64 - 2 ^ 63.

Module time.
(** [time.Duration] is an [int64] count of nanoseconds. *)
Definition Duration (d : Z) : Z := wrap64 d.
Definition Second : Z := 1000000000.
Definition mul (a b : Z) : Z := wrap64 (a * b).
End time.

(** ** net/http: cookies, requests, response writers *)

Module http.

(** [http.Cookie], without [Expires] (which [sessions.NewCookie] derives
    from [MaxAge] and the wall clock). *)
Record Cookie : Type := {
  Name : string;
  Value : string;
  Path : string;
  Domain : string;
  MaxAge : Z;
  Secure : bool;
  HttpOnly : bool;
  SameSite : Z
}.

(** The part of a request the store reads: its cookies, in header
    order. *)
Record Request : Type := { Cookies : list Cookie }.

Definition ErrNoCookie : error := errors_New "http: named cookie not present".

(** [r.Cookie(name)]: the first cookie of that name, or [ErrNoCookie]. *)
Definition Request_Cookie (r : Request) (name : string) : result Cookie :=
  if decide (name = "") then inr ErrNoCookie
  else match List.find (fun c => bool_decide (Name c = name)) (Cookies r) with
       | Some c => inl c
       | None => inr ErrNoCookie
       end.

(** A response writer, seen as the [Set-Cookie] instructions added to it
    so far. *)
Definition ResponseWriter : Type := list Cookie.

Definition SetCookie (w : ResponseWriter) (cookie : Cookie) : ResponseWriter :=
  w ++ [cookie].

(** A cookie that clears the one the client holds: empty value, negative
    max-age. *)
Definition clears (c : Cookie) : Prop := Value c = "" /\ MaxAge c < 0.

End http.

(** ** gorilla/sessions: options and sessions *)

Module sessions.

Record Options : Type := {
  Path : string;
  Domain : string;
  MaxAge : Z;
  Secure : bool;
  HttpOnly : bool;
  SameSite : Z
}.

(** The zero [Options]; it stands for the nil pointer a session holds
    until its store sets the field, which [New] does at once. *)
Definition zeroOptions : Options :=
  {| Path := ""; Domain := ""; MaxAge := 0; Secure := false;
     HttpOnly := false; SameSite := 0 |}.

Section Session.
Context `{Countable K} {V : Type}.

(** [sessions.Session]; [Values] is the [map[interface{}]interface{}],
    with [K] and [V] the dynamic keys and values; [Opts] is the field
    [Options]. *)
Record Session : Type := {
  ID : string;
  Values : gmap K V;
  Opts : Options;
  IsNew : bool;
  Name : string
}.

Definition NewSession (name : string) : Session :=
  {| ID := ""; Values := ∅; Opts := zeroOptions; IsNew := false;
     Name := name |}.

Definition with_ID (id : string) (s : Session) : Session :=
  {| ID := id; Values := Values s; Opts := Opts s; IsNew := IsNew s;
     Name := Name s |}.
Definition with_Values (v : gmap K V) (s : Session) : Session :=
  {| ID := ID s; Values := v; Opts := Opts s; IsNew := IsNew s;
     Name := Name s |}.
Definition with_Options (o : Options) (s : Session) : Session :=
  {| ID := ID s; Values := Values s; Opts := o; IsNew := IsNew s;
     Name := Name s |}.
Definition with_IsNew (b : bool) (s : Session) : Session :=
  {| ID := ID s; Values := Values s; Opts := Opts s; IsNew := b;
     Name := Name s |}.
End Session.
Arguments Session K {_ _} V.

(** [sessions.NewCookie(name, value, options)]. *)
Definition NewCookie (name value : string) (options : Options) : http.Cookie :=
  {| http.Name := name; http.Value := value;
     http.Path := Path options; http.Domain := Domain options;
     http.MaxAge := MaxAge options; http.Secure := Secure options;
     http.HttpOnly := HttpOnly options; http.SameSite := SameSite options |}.

End sessions.

(** ** go-redis: the client interface the store calls *)

Module redis.

(** The result of [client.Get]: [cmd.Err()] is [err], [cmd.Bytes()] is
    the pair of both fields. *)
Record StringCmd : Type := { val : string; err : option error }.

Definition Err (cmd : StringCmd) : option error := err cmd.
Definition Bytes (cmd : StringCmd) : string * option error := (val cmd, err cmd).

(** [redis.UniversalClient], restricted to the methods the store calls,
    over a state [R] of the connection and the server behind it.  [Ping],
    [Set_] and [Del] give what [.Err()] gives on the returned command. *)
Record UniversalClient (R : Type) : Type := {
  Ping : R -> option error * R;
  Get : string -> R -> StringCmd * R;
  Set_ : string -> string -> Z -> R -> option error * R;
  Del : string -> R -> option error * R;
  Close : R -> option error * R
}.
Arguments Ping {R}.
Arguments Get {R}.
Arguments Set_ {R}.
Arguments Del {R}.
Arguments Close {R}.

(** A command issued by the store, as it is sent. *)
Inductive Call : Type :=
| PING
| GET (key : string)
| SET (key value : string) (expiration : Z)
| DEL (key : string).

#[global] Instance Call_eq_dec : EqDecision Call.
Proof. solve_decision. Defined.

(** The key of a command, if it has one. *)
Definition key_of (c : Call) : option string :=
  match c with
  | PING => None
  | GET k | SET k _ _ | DEL k => Some k
  end.

Definition is_DEL (c : Call) : bool :=
  match c with DEL _ => true | _ => false end.

End redis.

(** ** The store *)

Module redstore.

Definition defaultMaxAge : Z := 86400 * 30.
Definition defaultPath : string := "/".
(** The package constant [keyPrefix] (the record field has the name). *)
Definition default_keyPrefix : string := "session:".

Section Store.
Context {R G : Type} `{Countable K} {V : Type}.

Abbreviation Session := (sessions.Session K V).

(** Everything outside the store that its calls reach: the state behind
    the Redis client, the state the key generator reads, and a record of
    what the store asked for (the commands it sent, in order, and how often
    it ran the key generator). *)
Record World : Type := {
  cache : R;
  calls : list redis.Call;
  gen : G;
  keygens : nat
}.

Definition KeyGenFunc : Type := G -> result string * G.

(** [SessionSerializer]: [Deserialize] writes through its session
    pointer, so it returns the session. *)
Record SessionSerializer : Type := {
  Serialize : Session -> result string;
  Deserialize : string -> Session -> Session * option error
}.

Record RedisStore : Type := {
  client : redis.UniversalClient R;
  options : sessions.Options;
  keyPrefix : string;
  keyGen : KeyGenFunc;
  serializer : SessionSerializer
}.

(** *** Calls that leave the store *)

Definition client_Ping (s : RedisStore) (W : World) : option error * World :=
  let '(e, c) := redis.Ping (client s) (cache W) in
  (e, {| cache := c; calls := calls W ++ [redis.PING]; gen := gen W;
         keygens := keygens W |}).

Definition client_Get (s : RedisStore) (key : string) (W : World)
  : redis.StringCmd * World :=
  let '(cmd, c) := redis.Get (client s) key (cache W) in
  (cmd, {| cache := c; calls := calls W ++ [redis.GET key]; gen := gen W;
           keygens := keygens W |}).

Definition client_Set (s : RedisStore) (key value : string) (expiration : Z)
  (W : World) : option error * World :=
  let '(e, c) := redis.Set_ (client s) key value expiration (cache W) in
  (e, {| cache := c; calls := calls W ++ [redis.SET key value expiration];
         gen := gen W; keygens := keygens W |}).

Definition client_Del (s : RedisStore) (key : string) (W : World)
  : option error * World :=
  let '(e, c) := redis.Del (client s) key (cache W) in
  (e, {| cache := c; calls := calls W ++ [redis.DEL key]; gen := gen W;
         keygens := keygens W |}).

Definition call_keyGen (s : RedisStore) (W : World) : result string * World :=
  let '(id, g) := keyGen s (gen W) in
  (id, {| cache := cache W; calls := calls W; gen := g;
          keygens := S (keygens W) |}).

(** *** save, load, delete *)

(** The duration [save] passes to [client.Set], named for the statements
    below. *)
Definition expiration (session : Session) : Z :=
  time.mul (time.Duration (sessions.MaxAge (sessions.Opts session))) time.Second.

Definition save (s : RedisStore) (session : Session) (W : World)
  : option error * World :=
  match Serialize (serializer s) session with
  | inr err => (Some err, W)
  | inl b =>
      client_Set s (keyPrefix s +:+ sessions.ID session) b
        (time.mul (time.Duration (sessions.MaxAge (sessions.Opts session)))
           time.Second) W
  end.

Definition load (s : RedisStore) (session : Session) (W : World)
  : Session * option error * World :=
  let '(cmd, W) := client_Get s (keyPrefix s +:+ sessions.ID session) W in
  match redis.Err cmd with
  | Some err => (session, Some err, W)
  | None =>
      match redis.Bytes cmd with
      | (_, Some err) => (session, Some err, W)
      | (b, None) =>
          let '(session, err) := Deserialize (serializer s) b session in
          (session, err, W)
      end
  end.

Definition delete (s : RedisStore) (session : Session) (W : World)
  : option error * World :=
  client_Del s (keyPrefix s +:+ sessions.ID session) W.

(** *** New *)

(** The session [New] has built when it calls [load]: new, with the
    store's options and the id read from the cookie.  Named for the
    statements below. *)
Definition loading (s : RedisStore) (name id : string) : Session :=
  sessions.with_ID id
    (sessions.with_IsNew true
       (sessions.with_Options (options s) (sessions.NewSession name))).

Definition New (s : RedisStore) (r : http.Request) (name : string) (W : World)
  : Session * option error * World :=
  let session := sessions.NewSession name in
  let opts := options s in
  let session := sessions.with_Options opts session in
  let session := sessions.with_IsNew true session in
  match http.Request_Cookie r name with
  | inr _ => (session, None, W)
  | inl c =>
      let session := sessions.with_ID (http.Value c) session in
      let '(session, err, W) := load s session W in
      match err with
      | None => (sessions.with_IsNew false session, None, W)
      | Some e =>
          if decide (e = redis_Nil) then (session, None, W)
          else (session, Some e, W)
      end
  end.

(** *** Save *)

(** The block [if session.ID == "" { ... }] of [Save]; [inr] is its early
    return. *)
Definition Save_id (s : RedisStore) (session : Session) (W : World)
  : result Session * World :=
  if decide (sessions.ID session = "") then
    match call_keyGen s W with
    | (inr _, W) => (inr (errors_New "redisstore: failed to generate session id"), W)
    | (inl id, W) => (inl (sessions.with_ID id session), W)
    end
  else (inl session, W).

Definition Save (s : RedisStore) (r : http.Request) (w : http.ResponseWriter)
  (session : Session) (W : World)
  : option error * http.ResponseWriter * Session * World :=
  if sessions.MaxAge (sessions.Opts session) <? 0 then
    match delete s session W with
    | (Some err, W) => (Some err, w, session, W)
    | (None, W) =>
        (None,
         http.SetCookie w
           (sessions.NewCookie (sessions.Name session) "" (sessions.Opts session)),
         session, W)
    end
  else
    match Save_id s session W with
    | (inr err, W) => (Some err, w, session, W)
    | (inl session, W) =>
        match save s session W with
        | (Some err, W) => (Some err, w, session, W)
        | (None, W) =>
            (None,
             http.SetCookie w
               (sessions.NewCookie (sessions.Name session) (sessions.ID session)
                  (sessions.Opts session)),
             session, W)
        end
    end.

(** *** Configuration *)

Definition Options (s : RedisStore) (opts : sessions.Options) : RedisStore :=
  {| client := client s; options := opts; keyPrefix := keyPrefix s;
     keyGen := keyGen s; serializer := serializer s |}.

Definition KeyPrefix (s : RedisStore) (prefix : string) : RedisStore :=
  {| client := client s; options := options s; keyPrefix := prefix;
     keyGen := keyGen s; serializer := serializer s |}.

Definition KeyGen (s : RedisStore) (f : KeyGenFunc) : RedisStore :=
  {| client := client s; options := options s; keyPrefix := keyPrefix s;
     keyGen := f; serializer := serializer s |}.

Definition Serializer (s : RedisStore) (ss : SessionSerializer) : RedisStore :=
  {| client := client s; options := options s; keyPrefix := keyPrefix s;
     keyGen := keyGen s; serializer := ss |}.

End Store.

Arguments World : clear implicits.
Arguments KeyGenFunc : clear implicits.
Arguments SessionSerializer K {_ _} V.
Arguments RedisStore R G K {_ _} V.


(** *** GobSerializer and NewRedisStore *)

Section Gob.
Context {R : Type} `{Countable K} {V : Type}.

(** Package encoding/gob, which the repository only calls:
    [gob_Encode v] is what [gob.NewEncoder(buf).Encode(v)] leaves in [buf],
    or its error; [gob_Decode d v] is [gob.NewDecoder(d).Decode(&v)], the
    map behind the pointer afterwards and the error. *)
Variable gob_Encode : gmap K V -> result string.
Variable gob_Decode : string -> gmap K V -> gmap K V * option error.

Definition GobSerializer : SessionSerializer K V :=
  {| Serialize := fun s =>
       match gob_Encode (sessions.Values s) with
       | inl b => inl b
       | inr err => inr err
       end;
     Deserialize := fun d s =>
       let '(v, err) := gob_Decode d (sessions.Values s) in
       (sessions.with_Values v s, err) |}.

Definition NewRedisStore (client : redis.UniversalClient R) (W : World R Reader)
  : RedisStore R Reader K V * option error * World R Reader :=
  let rs :=
    {| options := {| sessions.Path := defaultPath;
                     sessions.Domain := "";
                     sessions.MaxAge := defaultMaxAge;
                     sessions.Secure := false;
                     sessions.HttpOnly := false;
                     sessions.SameSite := 0 |};
       client := client;
       keyPrefix := default_keyPrefix;
       keyGen := DefaultKeyGen.keyGen;
       serializer := GobSerializer |} in
  let '(e, W) := client_Ping rs W in
  (rs, e, W).

End Gob.

End redstore.

(** ** A reference cache

    An in-memory cache with the behaviour the store expects of Redis behind
    the client: [SET] with a positive expiration makes the key live for
    that long, any other expiration the store can send leaves it without
    expiry; [GET] fails with [redis.Nil] for a key that is absent or
    expired; [DEL] succeeds whether or not the key is there; every command
    fails when the server cannot be reached. *)

Module MemRedis.

Record entry : Type := { blob : string; deadline : option Z }.

(** [now] and the deadlines count nanoseconds, as [time.Duration]
    does. *)
Record t : Type := {
  data : gmap string entry;
  now : Z;
  online : bool
}.

Definition unreachable : error := errors_New "dial tcp: connection refused".

Definition live (e : entry) (clock : Z) : bool :=
  match deadline e with
  | None => true
  | Some d => clock <? d
  end.

Definition Ping (c : t) : option error * t :=
  if online c then (None, c) else (Some unreachable, c).

Definition Get (key : string) (c : t) : redis.StringCmd * t :=
  if online c then
    match data c !! key with
    | Some e =>
        if live e (now c) then ({| redis.val := blob e; redis.err := None |}, c)
        else ({| redis.val := ""; redis.err := Some redis_Nil |}, c)
    | None => ({| redis.val := ""; redis.err := Some redis_Nil |}, c)
    end
  else ({| redis.val := ""; redis.err := Some unreachable |}, c).

Definition Set_ (key value : string) (expiration : Z) (c : t) : option error * t :=
  if online c then
    (None,
     {| data := <[key := {| blob := value;
                            deadline := if 0 <? expiration
                                        then Some (now c + expiration)
                                        else None |}]> (data c);
        now := now c; online := online c |})
  else (Some unreachable, c).

Definition Del (key : string) (c : t) : option error * t :=
  if online c then
    (None, {| data := base.delete key (data c); now := now c; online := online c |})
  else (Some unreachable, c).

Definition Close (c : t) : option error * t :=
  (None, {| data := data c; now := now c; online := false |}).

Definition client : redis.UniversalClient t :=
  {| redis.Ping := Ping; redis.Get := Get; redis.Set_ := Set_;
     redis.Del := Del; redis.Close := Close |}.

(** Time passing on the server. *)
Definition advance (dt : Z) (c : t) : t :=
  {| data := data c; now := now c + dt; online := online c |}.

Definition empty : t := {| data := ∅; now := 0; online := true |}.

End MemRedis.

(** ** A small codec and a store to run the model on

    [PairCodec] takes the place of encoding/gob when the model is run: a
    map of bytes to bytes is written as its entries, key byte then value
    byte; input of odd length is malformed. *)

Module PairCodec.

Fixpoint encode_list (l : list (ascii * ascii)) : string :=
  match l with
  | [] => ""
  | (k, v) :: l' => String k (String v (encode_list l'))
  end.

Definition Encode (m : gmap ascii ascii) : result string :=
  inl (encode_list (map_to_list m)).

Fixpoint Decode (d : string) (m : gmap ascii ascii)
  : gmap ascii ascii * option error :=
  match d with
  | "" => (m, None)
  | String k (String v d') => Decode d' (<[k := v]> m)
  | String _ "" => (m, Some (errors_New "unexpected EOF"))
  end.

End PairCodec.

Module Scenario.

Definition entropy : Reader := List.map inl (seqZ 0 63 ++ seqZ 0 63).

Definition W0 : redstore.World MemRedis.t Reader :=
  {| redstore.cache := MemRedis.empty; redstore.calls := [];
     redstore.gen := entropy; redstore.keygens := 0 |}.

(** The store [NewRedisStore] builds over the reference cache. *)
Definition store : redstore.RedisStore MemRedis.t Reader ascii ascii :=
  (redstore.NewRedisStore PairCodec.Encode PairCodec.Decode MemRedis.client W0).1.1.

Definition W1 : redstore.World MemRedis.t Reader :=
  (redstore.NewRedisStore (K := ascii) (V := ascii)
     PairCodec.Encode PairCodec.Decode MemRedis.client W0).2.

Definition req0 : http.Request := {| http.Cookies := [] |}.

Definition req (name id : string) : http.Request :=
  {| http.Cookies := [sessions.NewCookie name id sessions.zeroOptions] |}.

(** A session as [New] gives it for a request without cookie, holding one
    entry, with the given max-age. *)
Definition fresh (maxAge : Z) : sessions.Session ascii ascii :=
  let s := (redstore.New store req0 "sid" W1).1.1 in
  let o := sessions.Opts s in
  sessions.with_Options
    {| sessions.Path := sessions.Path o; sessions.Domain := sessions.Domain o;
       sessions.MaxAge := maxAge; sessions.Secure := sessions.Secure o;
       sessions.HttpOnly := sessions.HttpOnly o;
       sessions.SameSite := sessions.SameSite o |}
    (sessions.with_Values {[ "u"%char := "*"%char ]} s).

(** The same world with the cache server out of reach. *)
Definition offline (W : redstore.World MemRedis.t Reader)
  : redstore.World MemRedis.t Reader :=
  {| redstore.cache :=
       {| MemRedis.data := MemRedis.data (redstore.cache W);
          MemRedis.now := MemRedis.now (redstore.cache W);
          MemRedis.online := false |};
     redstore.calls := redstore.calls W;
     redstore.gen := redstore.gen W;
     redstore.keygens := redstore.keygens W |}.

(** Time passing between two requests. *)
Definition later (dt : Z) (W : redstore.World MemRedis.t Reader)
  : redstore.World MemRedis.t Reader :=
  {| redstore.cache := MemRedis.advance dt (redstore.cache W);
     redstore.calls := redstore.calls W;
     redstore.gen := redstore.gen W;
     redstore.keygens := redstore.keygens W |}.

(** The same session once it has the id [abc]. *)
Definition known (maxAge : Z) : sessions.Session ascii ascii :=
  sessions.with_ID "abc" (fresh maxAge).

(** A world whose key generator has no entropy left. *)
Definition dry (W : redstore.World MemRedis.t Reader)
  : redstore.World MemRedis.t Reader :=
  {| redstore.cache := redstore.cache W;
     redstore.calls := redstore.calls W;
     redstore.gen := [];
     redstore.keygens := redstore.keygens W |}.

(** A world whose cache holds a blob of odd length at the key of session
    id [abc]. *)
Definition corrupt : redstore.World MemRedis.t Reader :=
  {| redstore.cache :=
       {| MemRedis.data :=
            {[ "session:abc" := {| MemRedis.blob := "u"; MemRedis.deadline := None |} ]};
          MemRedis.now := 0; MemRedis.online := true |};
     redstore.calls := [];
     redstore.gen := entropy;
     redstore.keygens := 0 |}.

(** The store with a serializer that cannot encode. *)
Definition store_unencodable : redstore.RedisStore MemRedis.t Reader ascii ascii :=
  redstore.Serializer store
    {| redstore.Serialize := fun _ =>
         inr (errors_New "gob: type not registered for interface");
       redstore.Deserialize := fun _ t => (t, None) |}.

End Scenario.

(** ** The rest of the repository: echo glue and start-up

    What follows embeds the callers of the store and the pure helpers
    around them. *)

(** An outcome of a call that may panic instead of returning. *)
Inductive outcome (A : Type) : Type :=
| Returns (a : A)
| Panics (msg : string).
Arguments Returns {A} a.
Arguments Panics {A} msg.

(** *** labstack/echo: routes and request contexts *)

Module echo.

Record Route : Type := {
  Route_Method : string;
  Route_Path : string;
  Route_Name : string
}.

(** [echo.Context], as far as the repository reads and writes it: the
    request, its method ([c.Request().Method]), the path of the matched
    route ([c.Path()]), the routes registered with the router
    ([c.Echo().Routes()]), and the values kept by [c.Set].  [Val] is the
    type of these values; a key without value reads as [nil]. *)
Record Context (Val : Type) : Type := {
  Request : http.Request;
  Method : string;
  Path : string;
  Routes : list Route;
  store : gmap string Val
}.
Arguments Request {Val}.
Arguments Method {Val}.
Arguments Path {Val}.
Arguments Routes {Val}.
Arguments store {Val}.

Definition Get {Val : Type} (c : Context Val) (key : string) : option Val :=
  store c !! key.

Definition Set_ {Val : Type} (c : Context Val) (key : string) (val : Val)
  : Context Val :=
  {| Request := Request c; Method := Method c; Path := Path c;
     Routes := Routes c; store := <[key := val]> (store c) |}.

(** A handler gets the context by reference and may reach the world
    [St]. *)
Definition HandlerFunc (Val St : Type) : Type :=
  Context Val -> St -> option error * Context Val * St.

Definition MiddlewareFunc (Val St : Type) : Type :=
  HandlerFunc Val St -> HandlerFunc Val St.

(** [middleware.DefaultSkipper]. *)
Definition DefaultSkipper {Val : Type} (c : Context Val) : bool := false.

End echo.

(** *** Package echocore: SkipperRouteName, in the two versions the
    repository holds *)

Module echocore_a.

(** The loop over the routes; [slices.Contains] is list membership. *)
Fixpoint routes_loop (routes : list echo.Route) (routeNames : list string)
  : bool :=
  match routes with
  | [] => false
  | r :: rest =>
      if bool_decide (echo.Route_Name r ∈ routeNames) then true
      else routes_loop rest routeNames
  end.

Definition SkipperRouteName {Val : Type} (routeNames : list string)
  (c : echo.Context Val) : bool :=
  if decide (length routeNames = 0%nat) then false
  else routes_loop (echo.Routes c) routeNames.

End echocore_a.

Module echocore_b.

(** The inner loop [for _, key := range routeNames]: [true] is its
    [return true], [false] is falling out of it. *)
Fixpoint names_loop (routeNames : list string) (name : string) : bool :=
  match routeNames with
  | [] => false
  | key :: rest =>
      if decide (key = name) then true else names_loop rest name
  end.

Fixpoint routes_loop (routes : list echo.Route) (method path : string)
  (routeNames : list string) : bool :=
  match routes with
  | [] => false
  | r :: rest =>
      if bool_decide (echo.Route_Method r = method)
         && bool_decide (echo.Route_Path r = path)
      then
        if names_loop routeNames (echo.Route_Name r) then true
        else routes_loop rest method path routeNames
      else routes_loop rest method path routeNames
  end.

Definition SkipperRouteName {Val : Type} (routeNames : list string)
  (c : echo.Context Val) : bool :=
  if decide (length routeNames = 0%nat) then false
  else routes_loop (echo.Routes c) (echo.Method c) (echo.Path c) routeNames.

End echocore_b.

(** *** Package echocore: start-up and configuration *)

Module echocore.

(** [InitHandler], a closure over the core, as a step on everything it
    can reach. *)
Definition InitHandler (St : Type) : Type := St -> option error * St.

(** [Core.Init]. *)
Fixpoint Init {St : Type} (inits : list (InitHandler St)) (st : St)
  : option error * St :=
  match inits with
  | [] => (None, st)
  | init :: rest =>
      match init st with
      | (Some err, st') => (Some err, st')
      | (None, st') => Init rest st'
      end
  end.

Definition logDebug : string := "debug".
Definition logInfo : string := "info".
Definition logWarn : string := "warn".
Definition logError : string := "error".

(** The levels of gommon's [log.Lvl] that the repository names. *)
Inductive Lvl : Type := DEBUG | INFO | WARN | ERROR.

(** [Config], with the field the embedded methods read
    ([cfg.Log.Level]). *)
Record Config : Type := { Log_Level : string }.

Definition GommonLevel (cfg : Config) : outcome Lvl :=
  if decide (Log_Level cfg = logDebug) then Returns DEBUG
  else if decide (Log_Level cfg = logInfo) then Returns INFO
  else if decide (Log_Level cfg = logWarn) then Returns WARN
  else if decide (Log_Level cfg = logError) then Returns ERROR
  else Panics ("not a valid gommon Level: " +:+ Log_Level cfg).

Definition IsDebug (cfg : Config) : bool :=
  bool_decide (Log_Level cfg = logDebug).

(** The validation registered as [log_level] by [NewValidator], on the
    string of the field. *)
Definition log_level (field : string) : bool :=
  bool_decide (field ∈ [logDebug; logInfo; logWarn; logError]).

(** [logDown].  Its argument [reflect.TypeOf(obj).String()] is evaluated
    before the log call; for a nil [obj], [reflect.TypeOf] gives a nil
    [Type] and the method call on it panics.  [obj] is given by the name
    of its dynamic type, [None] being nil. *)
Definition logDown (obj : option string) (msg : string) : outcome unit :=
  match obj with
  | Some _ => Returns tt
  | None =>
      Panics "runtime error: invalid memory address or nil pointer dereference"
  end.

Section Core.
Context {R G : Type} `{Countable K} {V : Type}.

(** A [*gorm.DB], by what [DB()] returns on it: the pool, or an error. *)
Record GormDB : Type := { DB_error : option error }.

(** [Core]; a nil pointer is [None].  [Core_Config] is the field
    [Config]. *)
Record Core : Type := {
  Core_Config : Config;
  Gorm : option GormDB;
  Redis : option (redis.UniversalClient R);
  SessStore : option (redstore.RedisStore R G K V);
  TmpDir : string
}.

(** What [Shutdown] does to the outside, in order. *)
Inductive Effect : Type :=
| CloseStore
| CloseRedis
| CloseDB
| RemoveAll (dir : string).

(** The core together with what its shutdown reaches: the connection
    [conn] behind the Redis client, which the session store shares (as
    [InitSessStore] builds it on [c.Redis]), and the effects so far. *)
Record State : Type := {
  core : Core;
  conn : R;
  effects : list Effect
}.

(** Steps that may panic; a panic keeps the state it happened in. *)
Definition step : Type := State -> outcome unit * State.

Definition andThen (a b : step) : step :=
  fun st =>
    match a st with
    | (Returns _, st') => b st'
    | (Panics msg, st') => (Panics msg, st')
    end.

Definition log (obj : option string) (msg : string) : step :=
  fun st => (logDown obj msg, st).

Definition Shutdown_SessStore : step :=
  fun st =>
    match SessStore (core st) with
    | None => (Returns tt, st)
    | Some store =>
        andThen (log (Some "*redstore.RedisStore") "Close")
          (fun st =>
             let c := core st in
             (Returns tt,
              {| core := {| Core_Config := Core_Config c; Gorm := Gorm c;
                            Redis := Redis c; SessStore := None;
                            TmpDir := TmpDir c |};
                 conn := (redis.Close (redstore.client store) (conn st)).2;
                 effects := effects st ++ [CloseStore] |})) st
    end.

Definition Shutdown_Redis : step :=
  fun st =>
    match Redis (core st) with
    | None => (Returns tt, st)
    | Some client =>
        andThen (log (Some "*redis.Client") "Close")
          (fun st =>
             let c := core st in
             (Returns tt,
              {| core := {| Core_Config := Core_Config c; Gorm := Gorm c;
                            Redis := None; SessStore := SessStore c;
                            TmpDir := TmpDir c |};
                 conn := (redis.Close client (conn st)).2;
                 effects := effects st ++ [CloseRedis] |})) st
    end.

Definition Shutdown_Gorm : step :=
  fun st =>
    match Gorm (core st) with
    | None => (Returns tt, st)
    | Some db =>
        andThen (log (Some "*gorm.DB") "Close")
          (fun st =>
             let c := core st in
             (Returns tt,
              {| core := {| Core_Config := Core_Config c; Gorm := None;
                            Redis := Redis c; SessStore := SessStore c;
                            TmpDir := TmpDir c |};
                 conn := conn st;
                 effects := effects st ++
                            match DB_error db with
                            | None => [CloseDB]
                            | Some _ => []
                            end |})) st
    end.

Definition Shutdown_TmpDir : step :=
  fun st =>
    if decide (TmpDir (core st) = "") then (Returns tt, st)
    else
      andThen (log None "TmpDir Cleanup")
        (fun st =>
           let c := core st in
           (Returns tt,
            {| core := {| Core_Config := Core_Config c; Gorm := Gorm c;
                          Redis := Redis c; SessStore := SessStore c;
                          TmpDir := "" |};
               conn := conn st;
               effects := effects st ++ [RemoveAll (TmpDir c)] |})) st.

(** [Core.Shutdown]: its four blocks in order. *)
Definition Shutdown : step :=
  andThen Shutdown_SessStore
    (andThen Shutdown_Redis (andThen Shutdown_Gorm Shutdown_TmpDir)).

End Core.

Arguments Core R G K {_ _} V.
Arguments State R G K {_ _} V.

End echocore.

(** *** Package redstore: the echo middleware *)

Module redstore_echo.

Section Middleware.
Context {R G : Type} `{Countable K} {V : Type}.

(** What a context key can hold: a session store, or a value of another
    dynamic type, given by the name of the type. *)
Inductive Value : Type :=
| StoreValue (store : redstore.RedisStore R G K V)
| OtherValue (type : string).

Abbreviation Ctx := (echo.Context Value).
Abbreviation St := (redstore.World R G).

(** [Config]; a nil [Skipper] or [Store] is [None]. *)
Record Config : Type := {
  Skipper : option (Ctx -> bool);
  Store : option (redstore.RedisStore R G K V)
}.

Definition key : string := "_session_store".

Definition DefaultConfig : Config :=
  {| Skipper := Some echo.DefaultSkipper; Store := None |}.

(** The message of [fmt.Errorf("%q session store not found", key)]: the
    key in double quotes. *)
Definition not_found : string :=
  String (ascii_of_nat 34)
    (key +:+ String (ascii_of_nat 34) " session store not found").

(** [getstore]; the type assertion panics on a value that is no store. *)
Definition getstore (c : Ctx) : outcome (result (redstore.RedisStore R G K V)) :=
  match echo.Get c key with
  | None => Returns (inr (errors_New not_found))
  | Some (StoreValue store) => Returns (inl store)
  | Some (OtherValue type) =>
      Panics ("interface conversion: interface {} is " +:+ type
              +:+ ", not sessions.Store")
  end.

(** [New(name, c)]; the session pointer is nil when the store is
    missing. *)
Definition New (name : string) (c : Ctx) (W : St)
  : outcome (option (sessions.Session K V) * option error * St) :=
  match getstore c with
  | Panics msg => Panics msg
  | Returns (inr err) => Returns (None, Some err, W)
  | Returns (inl store) =>
      let '(session, err, W) := redstore.New store (echo.Request c) name W in
      Returns (Some session, err, W)
  end.

(** [MiddlewareWithConfig].  The deferred [context.Clear] empties
    gorilla's per-request registry, which is no part of this state. *)
Definition MiddlewareWithConfig (config : Config)
  : outcome (echo.MiddlewareFunc Value St) :=
  let skipper :=
    match Skipper config with
    | None => default echo.DefaultSkipper (Skipper DefaultConfig)
    | Some skipper => skipper
    end in
  match Store config with
  | None => Panics "echo: session middleware requires store"
  | Some store =>
      Returns (fun next c W =>
                 if skipper c then next c W
                 else next (echo.Set_ c key (StoreValue store)) W)
  end.

Definition Middleware (store : option (redstore.RedisStore R G K V))
  : outcome (echo.MiddlewareFunc Value St) :=
  let c := DefaultConfig in
  let c := {| Skipper := Skipper c; Store := store |} in
  MiddlewareWithConfig c.

End Middleware.

Arguments Value R G K {_ _} V.
Arguments Config R G K {_ _} V.

End redstore_echo.

(** *** A context and a core to run the glue on *)

Module Examples.

Definition ctx0
  : echo.Context (redstore_echo.Value MemRedis.t Reader ascii ascii) :=
  {| echo.Request := Scenario.req "sid" "abc";
     echo.Method := "GET"; echo.Path := "/";
     echo.Routes := []; echo.store := ∅ |}.

(** A core after [InitRedis], [InitSessStore] and [InitGorm], with the
    given temporary directory. *)
Definition started (tmp : string)
  : echocore.State MemRedis.t Reader ascii ascii :=
  {| echocore.core :=
       {| echocore.Core_Config :=
            {| echocore.Log_Level := "info" |};
          echocore.Gorm := Some {| echocore.DB_error := None |};
          echocore.Redis := Some MemRedis.client;
          echocore.SessStore := Some Scenario.store;
          echocore.TmpDir := tmp |};
     echocore.conn := MemRedis.empty;
     echocore.effects := [] |}.

End Examples.

(** * Properties *)

(** ** The default identifier generator *)

Section DefaultKeyGenFacts.
Import DefaultKeyGen.

Lemma rand_Int_nil : rand_Int 63 [] = (inr io_EOF, []).
Proof. reflexivity. Qed.

Lemma rand_Int_err (e : error) (rd : Reader) :
  rand_Int 63 (inr e :: rd) = (inr e, rd).
Proof. reflexivity. Qed.

Lemma rand_Int_byte (v : Z) (rd : Reader) :
  rand_Int 63 (inl v :: rd) =
  if Z.land v 63 <? 63 then (inl (Z.land v 63), rd) else rand_Int 63 rd.
Proof. reflexivity. Qed.

Lemma land63_nonneg (v : Z) : 0 <= Z.land v 63.
Proof. apply Z.land_nonneg. right. lia. Qed.

(** [rand.Int] gives an index of [letters]. *)
Lemma rand_Int_letters (rd rd' : Reader) (j : Z) :
  rand_Int 63 rd = (inl j, rd') -> 0 <= j < 63.
Proof.
  induction rd as [|[v|e] rd IH].
  - rewrite rand_Int_nil. discriminate.
  - rewrite rand_Int_byte.
    destruct (Z.land v 63 <? 63) eqn:Hlt.
    + intros [= <- _]. apply Z.ltb_lt in Hlt.
      split; [apply land63_nonneg | exact Hlt].
    + exact IH.
  - rewrite rand_Int_err. discriminate.
Qed.

Lemma loop_O (i : nat) (ret : list ascii) (rd : Reader) :
  loop 0 i ret rd = (inl (string_of_list_ascii ret), rd).
Proof. reflexivity. Qed.

Lemma loop_nil (m i : nat) (ret : list ascii) :
  loop (S m) i ret [] = (inr io_EOF, []).
Proof. reflexivity. Qed.

Lemma loop_err (m i : nat) (ret : list ascii) (e : error) (rd : Reader) :
  loop (S m) i ret (inr e :: rd) = (inr e, rd).
Proof. reflexivity. Qed.

Lemma loop_byte (m i : nat) (ret : list ascii) (v : Z) (rd : Reader) :
  loop (S m) i ret (inl v :: rd) =
  if Z.land v 63 <? 63
  then loop m (S i) (<[i := index letters (Z.land v 63)]> ret) rd
  else loop (S m) i ret rd.
Proof.
  change (loop (S m) i ret (inl v :: rd)) with
    (match rand_Int 63 (inl v :: rd) with
     | (inr err, rd') => (inr err, rd')
     | (inl num, rd') => loop m (S i) (<[i := index letters num]> ret) rd'
     end).
  rewrite rand_Int_byte.
  destruct (Z.land v 63 <? 63); reflexivity.
Qed.

Lemma get_lookup (s : string) (i : nat) :
  String.get i s = list_ascii_of_string s !! i.
Proof.
  revert i. induction s as [|c s IH]; intros [|i]; simpl; auto.
Qed.

Lemma length_string_of_list (l : list ascii) :
  String.length (string_of_list_ascii l) = length l.
Proof. induction l as [|c l IH]; simpl; congruence. Qed.

Lemma string_of_list_ascii_inj (l1 l2 : list ascii) :
  string_of_list_ascii l1 = string_of_list_ascii l2 -> l1 = l2.
Proof.
  intros Heq.
  rewrite <- (list_ascii_of_string_of_list_ascii l1),
          <- (list_ascii_of_string_of_list_ascii l2), Heq.
  reflexivity.
Qed.

Lemma letters_length : String.length letters = 63%nat.
Proof. reflexivity. Qed.

Lemma letters_NoDup : NoDup (list_ascii_of_string letters).
Proof. apply (bool_decide_unpack _). vm_compute. reflexivity. Qed.

Lemma index_letters_lookup (i : Z) :
  0 <= i < 63 ->
  list_ascii_of_string letters !! Z.to_nat i = Some (index letters i).
Proof.
  intros Hi. unfold index. rewrite get_lookup.
  destruct (lookup_lt_is_Some_2 (list_ascii_of_string letters) (Z.to_nat i))
    as [c Hc].
  - change (length (list_ascii_of_string letters)) with 63%nat. lia.
  - rewrite Hc. reflexivity.
Qed.

Lemma index_letters_elem (i : Z) :
  0 <= i < 63 -> index letters i ∈ list_ascii_of_string letters.
Proof.
  intros Hi. apply list_elem_of_lookup. exists (Z.to_nat i).
  apply index_letters_lookup, Hi.
Qed.

Lemma index_letters_inj (i j : Z) :
  0 <= i < 63 -> 0 <= j < 63 -> index letters i = index letters j -> i = j.
Proof.
  intros Hi Hj Heq.
  pose proof (index_letters_lookup i Hi) as Li.
  pose proof (index_letters_lookup j Hj) as Lj.
  rewrite <- Heq in Lj.
  pose proof (NoDup_lookup _ _ _ _ letters_NoDup Li Lj). lia.
Qed.

(** Every character of [letters] is the letter of an index. *)
Lemma letters_elem_index (c : ascii) :
  c ∈ list_ascii_of_string letters ->
  exists j : Z, 0 <= j < 63 /\ index letters j = c.
Proof.
  intros Hc. apply list_elem_of_lookup in Hc as [k Hk].
  assert (Hlt : (k < 63)%nat).
  { apply lookup_lt_Some in Hk.
    change (length (list_ascii_of_string letters)) with 63%nat in Hk. exact Hk. }
  exists (Z.of_nat k). split; [lia|].
  pose proof (index_letters_lookup (Z.of_nat k) ltac:(lia)) as Hl.
  rewrite Nat2Z.id in Hl. congruence.
Qed.

(** *** What the loop writes *)

Lemma length_writes (w : list Z) :
  forall (i : nat) (ret : list ascii), length (writes i w ret) = length ret.
Proof.
  induction w as [|j w IH]; intros i ret; simpl.
  - reflexivity.
  - rewrite IH, length_insert. reflexivity.
Qed.

Lemma writes_lookup_lt (w : list Z) :
  forall (i k : nat) (ret : list ascii),
    (k < i)%nat -> writes i w ret !! k = ret !! k.
Proof.
  induction w as [|j w IH]; intros i k ret Hk; simpl.
  - reflexivity.
  - rewrite IH by lia. apply list_lookup_insert_ne. lia.
Qed.

Lemma writes_spec (w : list Z) :
  forall (i : nat) (ret : list ascii),
    (i + length w <= length ret)%nat ->
    writes i w ret =
    take i ret ++ List.map (index letters) w ++ drop (i + length w) ret.
Proof.
  induction w as [|j w IH]; intros i ret Hlen; simpl in *.
  - rewrite Nat.add_0_r, take_drop. reflexivity.
  - rewrite IH by (rewrite length_insert; lia).
    rewrite (take_S_r _ _ (index letters j))
      by (apply list_lookup_insert_eq; lia).
    rewrite take_insert_ge by lia.
    rewrite drop_insert_lt by lia.
    rewrite <- app_assoc. simpl.
    replace (S (i + length w)) with (i + S (length w))%nat by lia.
    reflexivity.
Qed.

Lemma writes_all (w : list Z) :
  length w = n -> writes 0 w (replicate n Ascii.zero) = List.map (index letters) w.
Proof.
  intros Hlen. rewrite writes_spec by (rewrite length_replicate; lia).
  rewrite take_0, drop_ge by (rewrite length_replicate; lia).
  rewrite app_nil_r. reflexivity.
Qed.

Lemma writes_app (w1 w2 : list Z) :
  forall (i : nat) (ret : list ascii),
    writes i (w1 ++ w2) ret = writes (i + length w1) w2 (writes i w1 ret).
Proof.
  induction w1 as [|j w1 IH]; intros i ret; simpl.
  - rewrite Nat.add_0_r. reflexivity.
  - rewrite IH. f_equal. lia.
Qed.

(** *** The indices a run of bytes gives *)

Lemma accepted_cons (v : Z) (s : list Z) :
  accepted (v :: s) =
  if Z.land v 63 <? 63 then Z.land v 63 :: accepted s else accepted s.
Proof. unfold accepted. simpl. destruct (Z.land v 63 <? 63); reflexivity. Qed.

Lemma accepted_app (s1 s2 : list Z) :
  accepted (s1 ++ s2) = accepted s1 ++ accepted s2.
Proof. unfold accepted. rewrite List.map_app, List.filter_app. reflexivity. Qed.

Lemma accepted_range (s : list Z) : Forall (fun j => 0 <= j < 63) (accepted s).
Proof.
  induction s as [|v s IH].
  - constructor.
  - rewrite accepted_cons. destruct (Z.land v 63 <? 63) eqn:Hlt; [|exact IH].
    constructor; [|exact IH]. apply Z.ltb_lt in Hlt.
    split; [apply land63_nonneg | exact Hlt].
Qed.

(** Bytes below 63 are their own indices. *)
Lemma accepted_in_range (s : list Z) :
  Forall (fun v => 0 <= v < 63) s -> accepted s = s.
Proof.
  induction 1 as [|v s Hv _ IH].
  - reflexivity.
  - rewrite accepted_cons, IH.
    assert (Hland : Z.land v 63 = v).
    { change 63 with (Z.ones 6). rewrite Z.land_ones by lia.
      apply Z.mod_small. lia. }
    rewrite Hland.
    destruct (v <? 63) eqn:Hlt; [reflexivity|].
    apply Z.ltb_ge in Hlt. lia.
Qed.

(** The loop on a run of bytes that give fewer letters than it still
    wants. *)
Lemma loop_bytes (s : list Z) :
  forall (m i : nat) (ret : list ascii) (rd : Reader),
    loop (length (accepted s) + S m) i ret (List.map inl s ++ rd) =
    loop (S m) (i + length (accepted s)) (writes i (accepted s) ret) rd.
Proof.
  induction s as [|v s IH]; intros m i ret rd.
  - simpl. rewrite Nat.add_0_r. reflexivity.
  - rewrite accepted_cons. simpl List.map. simpl app.
    destruct (Z.land v 63 <? 63) eqn:Hlt.
    + simpl length. simpl Nat.add. rewrite loop_byte, Hlt, IH. simpl writes.
      f_equal. lia.
    + replace (length (accepted s) + S m)%nat
        with (S (length (accepted s) + m)) by lia.
      rewrite loop_byte, Hlt.
      replace (S (length (accepted s) + m))
        with (length (accepted s) + S m)%nat by lia.
      apply IH.
Qed.

(** A run that succeeds has written the letters of [m] indices. *)
Lemma loop_inv (rd : Reader) :
  forall (m i : nat) (ret : list ascii) (rd' : Reader) (id : string),
    loop m i ret rd = (inl id, rd') ->
    exists w : list Z,
      length w = m /\ Forall (fun j => 0 <= j < 63) w /\
      id = string_of_list_ascii (writes i w ret).
Proof.
  induction rd as [|[v|e] rd IH]; intros [|m] i ret rd' id Hrun;
    try (rewrite loop_O in Hrun; injection Hrun as <- _; exists [];
         split; [reflexivity|]; split; [constructor | reflexivity]).
  - rewrite loop_nil in Hrun. discriminate.
  - rewrite loop_byte in Hrun. destruct (Z.land v 63 <? 63) eqn:Hlt.
    + apply IH in Hrun as (w & Hlen & Hrange & ->).
      exists (Z.land v 63 :: w). simpl.
      split; [lia|]. split; [|reflexivity].
      constructor; [|exact Hrange]. apply Z.ltb_lt in Hlt.
      split; [apply land63_nonneg | exact Hlt].
    + apply IH in Hrun. exact Hrun.
  - rewrite loop_err in Hrun. discriminate.
Qed.

(** *** What [keyGen] returns *)

Lemma keyGen_ok (s : list Z) (v : Z) (rest : Reader) :
  length (accepted s) = 63%nat ->
  Z.land v 63 < 63 ->
  keyGen (List.map inl (s ++ [v]) ++ rest) =
  (inl (string_of_list_ascii (List.map (index letters) (accepted (s ++ [v])))),
   rest).
Proof.
  intros Hlen Hv. unfold keyGen.
  rewrite List.map_app, <- app_assoc.
  change (List.map inl [v] ++ rest) with (@inl Z error v :: rest).
  replace (loop n 0 (replicate n Ascii.zero))
    with (loop (length (accepted s) + 1) 0 (replicate n Ascii.zero))
    by (rewrite Hlen; reflexivity).
  rewrite loop_bytes, loop_byte.
  apply Z.ltb_lt in Hv. rewrite Hv, loop_O.
  rewrite accepted_app, accepted_cons, Hv. simpl accepted.
  rewrite <- writes_all
    by (rewrite length_app, Hlen; reflexivity).
  rewrite writes_app. reflexivity.
Qed.

Lemma keyGen_fail (s : list Z) (e : error) (rest : Reader) :
  (length (accepted s) < 64)%nat ->
  keyGen (List.map inl s ++ inr e :: rest) = (inr e, rest).
Proof.
  intros Hlen. unfold keyGen.
  replace n with (length (accepted s) + S (63 - length (accepted s)))%nat
    by (unfold n; lia).
  rewrite loop_bytes. apply loop_err.
Qed.

Lemma keyGen_eof (s : list Z) :
  (length (accepted s) < 64)%nat ->
  keyGen (List.map inl s) = (inr io_EOF, []).
Proof.
  intros Hlen. unfold keyGen.
  replace n with (length (accepted s) + S (63 - length (accepted s)))%nat
    by (unfold n; lia).
  rewrite <- (app_nil_r (List.map inl s)). rewrite loop_bytes. apply loop_nil.
Qed.

Lemma keyGen_inv (rd rd' : Reader) (id : string) :
  keyGen rd = (inl id, rd') ->
  exists w : list Z,
    length w = n /\ Forall (fun j => 0 <= j < 63) w /\
    id = string_of_list_ascii (List.map (index letters) w).
Proof.
  intros Hrun. unfold keyGen in Hrun.
  apply loop_inv in Hrun as (w & Hlen & Hrange & ->).
  exists w. rewrite writes_all by exact Hlen. auto.
Qed.

Lemma map_index_elem (w : list Z) :
  Forall (fun j => 0 <= j < 63) w ->
  Forall (fun c => c ∈ list_ascii_of_string letters) (List.map (index letters) w).
Proof.
  induction 1 as [|j w Hj _ IH]; simpl; constructor;
    [apply index_letters_elem; exact Hj | exact IH].
Qed.

Lemma keyGen_is_id (rd rd' : Reader) (id : string) :
  keyGen rd = (inl id, rd') -> is_id id.
Proof.
  intros Hrun. apply keyGen_inv in Hrun as (w & Hlen & Hrange & ->).
  split.
  - rewrite length_string_of_list, length_map. exact Hlen.
  - rewrite list_ascii_of_string_of_list_ascii. apply map_index_elem, Hrange.
Qed.

(** A well-formed identifier is the word of 64 indices. *)
Lemma is_id_indices (id : string) :
  is_id id ->
  exists w : list Z,
    length w = n /\ Forall (fun j => 0 <= j < 63) w /\
    id = string_of_list_ascii (List.map (index letters) w).
Proof.
  intros [Hlen Hchars].
  rewrite <- (string_of_list_ascii_of_string id).
  rewrite <- (string_of_list_ascii_of_string id), length_string_of_list in Hlen.
  revert Hlen. generalize n.
  induction Hchars as [|c cs Hc _ IH]; intros k Hlen; simpl in Hlen.
  - exists []. subst k. repeat split. constructor.
  - destruct k as [|k]; [discriminate|].
    destruct (IH k ltac:(lia)) as (w & Hw & Hrange & Heq).
    destruct (letters_elem_index c Hc) as (j & Hj & <-).
    exists (j :: w). simpl. repeat split; [lia | constructor; assumption |].
    apply string_of_list_ascii_inj in Heq. rewrite Heq. reflexivity.
Qed.

(** A generated identifier only holds characters of [letters]. *)
Lemma keyGen_chars (rd rd' : Reader) (id : string) (c : ascii) :
  keyGen rd = (inl id, rd') ->
  c ∈ list_ascii_of_string id ->
  c ∈ list_ascii_of_string letters.
Proof.
  intros Hrun Hc. apply keyGen_is_id in Hrun as [_ Hchars].
  rewrite Forall_forall in Hchars. apply Hchars, Hc.
Qed.


(** *** Counting the runs of bytes behind an identifier *)

Lemma filter_flat_map_length {A B : Type} (p : B -> bool) (g : A -> list B)
  (l : list A) :
  length (List.filter p (List.flat_map g l)) =
  list_sum (List.map (fun x => length (List.filter p (g x))) l).
Proof.
  induction l as [|x l IH]; simpl.
  - reflexivity.
  - rewrite List.filter_app, length_app, IH. reflexivity.
Qed.

Lemma filter_map_length {A B : Type} (p : B -> bool) (f : A -> B) (l : list A) :
  length (List.filter p (List.map f l)) =
  length (List.filter (fun x => p (f x)) l).
Proof.
  induction l as [|x l IH]; simpl.
  - reflexivity.
  - destruct (p (f x)); simpl; rewrite IH; reflexivity.
Qed.

Lemma filter_none_length {A : Type} (p : A -> bool) (l : list A) :
  (forall x, p x = false) -> length (List.filter p l) = 0%nat.
Proof.
  intros Hp. induction l as [|x l IH]; simpl; [reflexivity|].
  rewrite Hp. exact IH.
Qed.

Lemma filter_ext_length {A : Type} (p q : A -> bool) (l : list A) :
  (forall x, p x = q x) ->
  length (List.filter p l) = length (List.filter q l).
Proof. intros Hpq. rewrite (List.filter_ext p q Hpq). reflexivity. Qed.

Lemma list_sum_classes (p q : Z -> bool) (a b : nat) (l : list Z) :
  list_sum
    (List.map
       (fun v => Nat.add (if p v then a else 0%nat) (if q v then b else 0%nat))
       l)
  = (a * length (List.filter p l) + b * length (List.filter q l))%nat.
Proof.
  induction l as [|v l IH]; simpl.
  - lia.
  - rewrite IH. destruct (p v), (q v); simpl; lia.
Qed.

(** Four of the 256 bytes are thrown away, and each index has four bytes
    that give it. *)
Lemma bytes_rejected :
  length (List.filter (fun v => negb (Z.land v 63 <? 63)) bytes) = 4%nat.
Proof. vm_compute. reflexivity. Qed.

Lemma bytes_of_index (j : Z) :
  0 <= j < 63 ->
  length (List.filter (fun v => Z.land v 63 =? j) bytes) = 4%nat.
Proof.
  intros Hj.
  assert (Hall : Forall
            (fun j => length (List.filter (fun v => Z.land v 63 =? j) bytes)
                      = 4%nat) (seqZ 0 63)).
  { apply (bool_decide_unpack _). vm_compute. reflexivity. }
  rewrite Forall_forall in Hall. apply Hall. apply elem_of_seqZ. lia.
Qed.

(** The loop cannot return a string whose letter at a position it has
    passed differs from the one written there. *)
Lemma loop_keeps_written (m i : nat) (ret : list ascii) (j j' : Z) (w : list Z)
  (rd rd' : Reader) :
  (i < length ret)%nat ->
  0 <= j < 63 -> 0 <= j' < 63 ->
  loop m (S i) (<[i := index letters j']> ret) rd =
  (inl (string_of_list_ascii (writes (S i) w (<[i := index letters j]> ret))),
   rd') ->
  j' = j.
Proof.
  intros Hi Hj Hj' Hrun.
  apply loop_inv in Hrun as (w' & _ & _ & Heq).
  apply string_of_list_ascii_inj in Heq.
  apply (f_equal (fun l => l !! i)) in Heq.
  rewrite !writes_lookup_lt in Heq by lia.
  rewrite !list_lookup_insert_eq in Heq by exact Hi.
  injection Heq as Heq. symmetry. apply index_letters_inj; auto.
Qed.

Lemma hits_byte (m i : nat) (ret : list ascii) (j : Z) (w : list Z) (v : Z)
  (s : list Z) :
  (i < length ret)%nat ->
  0 <= j < 63 ->
  hits (S m) i ret (j :: w) (v :: s) =
  if Z.land v 63 <? 63 then
    if Z.land v 63 =? j
    then hits m (S i) (<[i := index letters j]> ret) w s
    else false
  else hits (S m) i ret (j :: w) s.
Proof.
  intros Hi Hj. unfold hits. simpl List.map. rewrite loop_byte. simpl writes.
  destruct (Z.land v 63 <? 63) eqn:Hlt; [|reflexivity].
  destruct (Z.land v 63 =? j) eqn:Heq.
  - apply Z.eqb_eq in Heq. rewrite Heq. reflexivity.
  - apply bool_decide_eq_false. intros Hrun.
    apply loop_keeps_written in Hrun; auto.
    + apply Z.eqb_neq in Heq. contradiction.
    + apply Z.ltb_lt in Hlt. split; [apply land63_nonneg | exact Hlt].
Qed.

Lemma hits_count (L : nat) :
  forall (m i : nat) (ret : list ascii) (w : list Z),
    length w = m ->
    Forall (fun j => 0 <= j < 63) w ->
    (i + m <= length ret)%nat ->
    length (List.filter (hits m i ret w) (streams L)) = ways L m.
Proof.
  induction L as [|L IH]; intros m i ret w Hlen Hrange Hret.
  - destruct w as [|j w]; simpl in Hlen; subst m.
    + assert (Hhit : hits 0 i ret [] [] = true).
      { unfold hits. apply bool_decide_eq_true_2. reflexivity. }
      cbn [streams List.filter]. rewrite Hhit. reflexivity.
    + assert (Hhit : hits (S (length w)) i ret (j :: w) [] = false).
      { unfold hits. apply bool_decide_eq_false_2.
        change (List.map inl []) with (@nil (Z + error)).
        rewrite loop_nil. discriminate. }
      cbn [streams List.filter]. rewrite Hhit. reflexivity.
  - change (streams (S L)) with
      (List.flat_map (fun v => List.map (cons v) (streams L)) bytes).
    rewrite filter_flat_map_length.
    destruct w as [|j w]; simpl in Hlen; subst m.
    + simpl ways.
      assert (Hzero : forall v : Z,
                length (List.filter (hits 0 i ret [])
                          (List.map (cons v) (streams L))) = 0%nat).
      { intros v. rewrite filter_map_length. apply filter_none_length.
        intros s. unfold hits. simpl List.map. rewrite loop_O.
        apply bool_decide_eq_false_2. discriminate. }
      induction bytes as [|v l IHl]; simpl; [reflexivity|].
      rewrite Hzero, IHl. reflexivity.
    + apply Forall_cons in Hrange as [Hj Hrange]. simpl in Hret.
      assert (Hterm : forall v : Z,
                length (List.filter (hits (S (length w)) i ret (j :: w))
                          (List.map (cons v) (streams L))) =
                Nat.add
                  (if negb (Z.land v 63 <? 63) then ways L (S (length w))
                   else 0%nat)
                  (if Z.land v 63 =? j then ways L (length w) else 0%nat)).
      { intros v. rewrite filter_map_length.
        rewrite (filter_ext_length _
                   (fun s =>
                      if Z.land v 63 <? 63 then
                        if Z.land v 63 =? j
                        then hits (length w) (S i)
                               (<[i := index letters j]> ret) w s
                        else false
                      else hits (S (length w)) i ret (j :: w) s))
          by (intros s; apply hits_byte; [lia | exact Hj]).
        destruct (Z.land v 63 <? 63) eqn:Hlt; simpl.
        - destruct (Z.land v 63 =? j) eqn:Heq.
          + apply IH; [reflexivity | exact Hrange | rewrite length_insert; lia].
          + apply filter_none_length. reflexivity.
        - assert (Hne : (Z.land v 63 =? j) = false).
          { apply Z.eqb_neq. apply Z.ltb_ge in Hlt. lia. }
          rewrite Hne, Nat.add_0_r.
          apply IH; [reflexivity | constructor; assumption | simpl; lia]. }
      rewrite (List.map_ext _ _ Hterm), list_sum_classes.
      rewrite bytes_rejected, (bytes_of_index j Hj). simpl ways. lia.
Qed.

(** [streams L] lists every run of [L] bytes, once. *)
Lemma elem_of_streams (L : nat) :
  forall s : list Z,
    s ∈ streams L <-> length s = L /\ Forall (fun v => 0 <= v < 256) s.
Proof.
  induction L as [|L IH]; intros s.
  - simpl. rewrite list_elem_of_singleton. split.
    + intros ->. split; [reflexivity | constructor].
    + intros [Hlen _]. destruct s; [reflexivity | discriminate].
  - change (streams (S L)) with
      (List.flat_map (fun v => List.map (cons v) (streams L)) bytes).
    rewrite list_elem_of_In, List.in_flat_map. split.
    + intros (v & Hv & Hs). apply List.in_map_iff in Hs as (s' & <- & Hs').
      apply list_elem_of_In in Hv. apply list_elem_of_In in Hs'.
      apply IH in Hs' as [Hlen Hall]. apply elem_of_seqZ in Hv.
      split; [simpl; lia | constructor; [lia | exact Hall]].
    + intros [Hlen Hall]. destruct s as [|v s]; [discriminate|].
      apply Forall_cons in Hall as [Hv Hall]. exists v. split.
      * apply list_elem_of_In, elem_of_seqZ. lia.
      * apply List.in_map, list_elem_of_In, IH.
        split; [simpl in Hlen; lia | exact Hall].
Qed.

Lemma NoDup_flat_map_cons (l : list Z) (ss : list (list Z)) :
  NoDup l -> NoDup ss ->
  NoDup (List.flat_map (fun v => List.map (cons v) ss) l).
Proof.
  intros Hl Hss. induction Hl as [|v l Hv _ IH]; simpl.
  - constructor.
  - apply NoDup_app. split; [|split; [|exact IH]].
    + apply (NoDup_fmap_2 (cons v)). exact Hss.
    + intros s Hs Hrest. apply list_elem_of_fmap in Hs as (s' & -> & _).
      apply list_elem_of_In, List.in_flat_map in Hrest as (u & Hu & Hin).
      apply List.in_map_iff in Hin as (s'' & [= -> _] & _).
      apply Hv, list_elem_of_In. exact Hu.
Qed.

Lemma NoDup_streams (L : nat) : NoDup (streams L).
Proof.
  induction L as [|L IH].
  - apply NoDup_singleton.
  - apply NoDup_flat_map_cons; [apply NoDup_seqZ | exact IH].
Qed.

Lemma ways_above (L : nat) : forall m : nat, (L < m)%nat -> ways L m = 0%nat.
Proof.
  induction L as [|L IH]; intros [|m] Hlt; simpl; try lia.
  rewrite !IH by lia. reflexivity.
Qed.

Lemma ways_diag (L : nat) : (0 < ways L L)%nat.
Proof.
  induction L as [|L IH]; simpl; [lia|].
  rewrite ways_above by lia. lia.
Qed.

Lemma count_ways (L : nat) (id : string) : is_id id -> count L id = ways L n.
Proof.
  intros Hid. apply is_id_indices in Hid as (w & Hlen & Hrange & ->).
  unfold count.
  rewrite (filter_ext_length _ (hits n 0 (replicate n Ascii.zero) w)).
  - apply hits_count; [exact Hlen | exact Hrange |].
    rewrite length_replicate. lia.
  - intros s. unfold hits, keyGen. rewrite writes_all by exact Hlen.
    reflexivity.
Qed.

(** The generator on 64 bytes that are indices already. *)
Lemma keyGen_indices (draws : list Z) (rest : Reader) :
  length draws = 64%nat ->
  Forall (fun v => 0 <= v < 63) draws ->
  keyGen (List.map inl draws ++ rest) =
  (inl (string_of_list_ascii (List.map (index letters) draws)), rest).
Proof.
  intros Hlen Hrange.
  destruct draws as [|v0 draws0] using rev_ind; [discriminate|].
  clear IHdraws0. rewrite length_app in Hlen. simpl in Hlen.
  apply Forall_app in Hrange as [Hrange Hv].
  apply Forall_cons in Hv as [Hv _].
  assert (Hacc : accepted (draws0 ++ [v0]) = draws0 ++ [v0]).
  { apply accepted_in_range. apply Forall_app. split; [exact Hrange|].
    constructor; [exact Hv | constructor]. }
  rewrite keyGen_ok.
  - rewrite Hacc. reflexivity.
  - rewrite accepted_in_range by exact Hrange. lia.
  - assert (Hone : accepted [v0] = [v0])
      by (apply accepted_in_range; constructor; [exact Hv | constructor]).
    unfold accepted in Hone. simpl in Hone.
    destruct (Z.land v0 63 <? 63) eqn:Hlt; [|discriminate].
    apply Z.ltb_lt. exact Hlt.
Qed.

End DefaultKeyGenFacts.

(** C8, as the code has it.  On success the default generator returns a
    string of exactly 64 characters, all of them in [letters], and it does
    succeed as soon as the source has delivered 64 bytes that pass the
    rejection test of [rand.Int].  [letters] holds 63 pairwise distinct
    characters (digits, upper case, lower case, hyphen), not 64.  The
    characters are drawn uniformly: for every number [L] of bytes read,
    the runs of [L] bytes on which the generator returns a given
    identifier are as many for one identifier of 64 characters of
    [letters] as for any other, and every such identifier is returned on
    some run of 64 bytes; so under a source of uniform, independent bytes
    all identifiers are equally likely.  A read that fails, or a source
    that runs dry, before 64 bytes have passed the test makes the generator
    return that error and no identifier. *)
Theorem keyGen_spec :
  (forall (rd rd' : Reader) (id : string),
      DefaultKeyGen.keyGen rd = (inl id, rd') ->
      String.length id = 64%nat /\
      Forall (fun c => c ∈ list_ascii_of_string DefaultKeyGen.letters)
        (list_ascii_of_string id)) /\
  (forall (s : list Z) (v : Z) (rest : Reader),
      length (DefaultKeyGen.accepted s) = 63%nat ->
      Z.land v 63 < 63 ->
      DefaultKeyGen.keyGen (List.map inl (s ++ [v]) ++ rest) =
      (inl (string_of_list_ascii
              (List.map (DefaultKeyGen.index DefaultKeyGen.letters)
                 (DefaultKeyGen.accepted (s ++ [v])))), rest)) /\
  String.length DefaultKeyGen.letters = 63%nat /\
  NoDup (list_ascii_of_string DefaultKeyGen.letters) /\
  (forall (L : nat) (id1 id2 : string),
      DefaultKeyGen.is_id id1 -> DefaultKeyGen.is_id id2 ->
      DefaultKeyGen.count L id1 = DefaultKeyGen.count L id2) /\
  (forall id : string,
      DefaultKeyGen.is_id id ->
      (0 < DefaultKeyGen.count DefaultKeyGen.n id)%nat) /\
  (forall (s : list Z) (e : error) (rest : Reader),
      (length (DefaultKeyGen.accepted s) < 64)%nat ->
      DefaultKeyGen.keyGen (List.map inl s ++ inr e :: rest) = (inr e, rest)) /\
  (forall s : list Z,
      (length (DefaultKeyGen.accepted s) < 64)%nat ->
      DefaultKeyGen.keyGen (List.map inl s) = (inr io_EOF, [])).
Proof.
  split; [|split; [|split; [|split; [|split; [|split; [|split]]]]]].
  - intros rd rd' id Hrun. exact (keyGen_is_id _ _ _ Hrun).
  - exact keyGen_ok.
  - reflexivity.
  - exact letters_NoDup.
  - intros L id1 id2 H1 H2. rewrite !count_ways by assumption. reflexivity.
  - intros id Hid. rewrite count_ways by exact Hid. apply ways_diag.
  - exact keyGen_fail.
  - exact keyGen_eof.
Qed.

(** A source whose bytes 63, 255 and 127 are thrown away and whose byte 64
    counts as index 0; two identifiers with equally many runs of 70 bytes;
    a source that fails at the eleventh read, and one that runs dry. *)
Lemma keyGen_spec_witness :
  DefaultKeyGen.keyGen
    (List.map inl (([63; 255] ++ seqZ 0 62 ++ [127; 62]) ++ [64]) ++ [inl 7]) =
  (inl (string_of_list_ascii
          (List.map (DefaultKeyGen.index DefaultKeyGen.letters)
             (DefaultKeyGen.accepted
                (([63; 255] ++ seqZ 0 62 ++ [127; 62]) ++ [64])))),
   [inl 7]) /\
  DefaultKeyGen.count 70
    "0123456789ABCDEFGHIJKLMNOPQRSTUVWXYZabcdefghijklmnopqrstuvwxyz-0" =
  DefaultKeyGen.count 70
    "----------------------------------------------------------------" /\
  DefaultKeyGen.keyGen
    (List.map inl (seqZ 0 10) ++ inr (errors_New "entropy") :: []) =
  (inr (errors_New "entropy"), []) /\
  DefaultKeyGen.keyGen (List.map inl (seqZ 60 10)) = (inr io_EOF, []).
Proof.
  destruct keyGen_spec as (_ & Hok & _ & _ & Huni & _ & Hfail & Heof).
  split; [|split; [|split]].
  - apply (Hok ([63; 255] ++ seqZ 0 62 ++ [127; 62]) 64 [inl 7]).
    + vm_compute. reflexivity.
    + vm_compute. reflexivity.
  - apply (Huni 70%nat).
    + split; [reflexivity|]. apply (bool_decide_unpack _). vm_compute.
      reflexivity.
    + split; [reflexivity|]. apply (bool_decide_unpack _). vm_compute.
      reflexivity.
  - apply (Hfail (seqZ 0 10)). vm_compute. lia.
  - apply (Heof (seqZ 60 10)). vm_compute. lia.
Defined.

(** C8, as stated, fails: the alphabet has 63 characters, not 64, and no
    set of 64 distinct characters is used by the generator. *)
Lemma keyGen_alphabet_not_64 :
  String.length DefaultKeyGen.letters <> 64%nat /\
  ~ (exists alphabet : list ascii,
        NoDup alphabet /\ length alphabet = 64%nat /\
        forall c : ascii, c ∈ alphabet ->
          exists (rd rd' : Reader) (id : string),
            DefaultKeyGen.keyGen rd = (inl id, rd') /\
            c ∈ list_ascii_of_string id).
Proof.
  split; [vm_compute; discriminate|].
  intros (alphabet & Hnd & Hlen & Huse).
  assert (Hsub : alphabet ⊆+ list_ascii_of_string DefaultKeyGen.letters).
  { apply NoDup_submseteq; [exact Hnd|].
    intros c Hc. destruct (Huse c Hc) as (rd & rd' & id & Hrun & Hin).
    exact (keyGen_chars _ _ _ _ Hrun Hin). }
  apply submseteq_length in Hsub.
  change (length (list_ascii_of_string DefaultKeyGen.letters)) with 63%nat in Hsub.
  lia.
Qed.

(** ** The store over any client, key generator and serializer *)

(** Closes [exists l, x = y ++ l /\ Forall P l] when nothing was added,
    [H] being [x = y]. *)
Ltac nothing_more H :=
  exists []; rewrite app_nil_r; split; [exact H | constructor].

Section StoreFacts.
Import redstore.
Context {R G : Type} `{Countable K} {V : Type}.
Implicit Types (s : RedisStore R G K V) (session : sessions.Session K V).
Implicit Types (W : World R G) (r : http.Request) (w : http.ResponseWriter).

Lemma delete_calls s session W :
  delete s session W =
  ((redis.Del (client s) (keyPrefix s +:+ sessions.ID session) (cache W)).1,
   {| cache := (redis.Del (client s) (keyPrefix s +:+ sessions.ID session) (cache W)).2;
      calls := calls W ++ [redis.DEL (keyPrefix s +:+ sessions.ID session)];
      gen := gen W; keygens := keygens W |}).
Proof.
  unfold delete, client_Del.
  destruct (redis.Del _ _ _) as [e c]. reflexivity.
Qed.

Lemma save_calls s session W :
  save s session W =
  match Serialize (serializer s) session with
  | inr err => (Some err, W)
  | inl b =>
      ((redis.Set_ (client s) (keyPrefix s +:+ sessions.ID session) b
          (expiration session) (cache W)).1,
       {| cache := (redis.Set_ (client s) (keyPrefix s +:+ sessions.ID session) b
                      (expiration session) (cache W)).2;
          calls := calls W ++
                   [redis.SET (keyPrefix s +:+ sessions.ID session) b
                      (expiration session)];
          gen := gen W; keygens := keygens W |})
  end.
Proof.
  unfold save, client_Set, expiration.
  destruct (Serialize _ _) as [b|err]; [|reflexivity].
  destruct (redis.Set_ _ _ _ _ _) as [e c]. reflexivity.
Qed.

Lemma load_calls s session W :
  calls (load s session W).2 =
  calls W ++ [redis.GET (keyPrefix s +:+ sessions.ID session)] /\
  gen (load s session W).2 = gen W /\
  keygens (load s session W).2 = keygens W.
Proof.
  unfold load, client_Get.
  destruct (redis.Get _ _ _) as [[v [e|]] c]; simpl; auto.
  destruct (Deserialize _ _ _) as [t e]. simpl. auto.
Qed.

(** [Save_id] leaves cache and commands alone, keeps a non-empty id, and
    runs the key generator exactly when the id is empty. *)
Lemma Save_id_frame s session W :
  cache (Save_id s session W).2 = cache W /\
  calls (Save_id s session W).2 = calls W /\
  (sessions.ID session <> "" ->
   Save_id s session W = (inl session, W)) /\
  (sessions.ID session = "" ->
   keygens (Save_id s session W).2 = S (keygens W) /\
   gen (Save_id s session W).2 = (keyGen s (gen W)).2 /\
   match (keyGen s (gen W)).1 with
   | inl id => (Save_id s session W).1 = inl (sessions.with_ID id session)
   | inr _ =>
       (Save_id s session W).1 =
       inr (errors_New "redisstore: failed to generate session id")
   end).
Proof.
  unfold Save_id, call_keyGen.
  destruct (decide (sessions.ID session = "")) as [He|Hne].
  - destruct (keyGen s (gen W)) as [[id|e] g]; simpl;
      repeat split; auto; intros; contradiction.
  - repeat split; auto; intros; contradiction.
Qed.

Lemma Save_id_session s session W session1 W1 :
  Save_id s session W = (inl session1, W1) ->
  sessions.Values session1 = sessions.Values session /\
  sessions.Opts session1 = sessions.Opts session /\
  sessions.Name session1 = sessions.Name session /\
  (sessions.ID session <> "" -> sessions.ID session1 = sessions.ID session).
Proof.
  unfold Save_id, call_keyGen.
  destruct (decide (sessions.ID session = "")) as [He|Hne].
  - destruct (keyGen s (gen W)) as [[id|e] g]; [|discriminate].
    intros [= <- <-]. simpl. repeat split; auto. intros; contradiction.
  - intros [= <- <-]. auto.
Qed.

(** The delete path of [Save], in full. *)
Lemma Save_delete_path s r w session W :
  sessions.MaxAge (sessions.Opts session) < 0 ->
  Save s r w session W =
  (let key := keyPrefix s +:+ sessions.ID session in
   let res := redis.Del (client s) key (cache W) in
   (res.1,
    match res.1 with
    | None =>
        http.SetCookie w
          (sessions.NewCookie (sessions.Name session) "" (sessions.Opts session))
    | Some _ => w
    end,
    session,
    {| cache := res.2; calls := calls W ++ [redis.DEL key];
       gen := gen W; keygens := keygens W |})).
Proof.
  intros Hneg. unfold Save.
  apply Z.ltb_lt in Hneg. rewrite Hneg, delete_calls.
  cbv zeta. destruct (redis.Del _ _ _) as [[e|] c]; reflexivity.
Qed.

(** The write path of [Save], in full. *)
Lemma Save_write_path s r w session W :
  0 <= sessions.MaxAge (sessions.Opts session) ->
  Save s r w session W =
  match Save_id s session W with
  | (inr err, W1) => (Some err, w, session, W1)
  | (inl session1, W1) =>
      match Serialize (serializer s) session1 with
      | inr err => (Some err, w, session1, W1)
      | inl b =>
          let key := keyPrefix s +:+ sessions.ID session1 in
          let res := redis.Set_ (client s) key b (expiration session1) (cache W1) in
          (res.1,
           match res.1 with
           | None =>
               http.SetCookie w
                 (sessions.NewCookie (sessions.Name session1)
                    (sessions.ID session1) (sessions.Opts session1))
           | Some _ => w
           end,
           session1,
           {| cache := res.2;
              calls := calls W1 ++ [redis.SET key b (expiration session1)];
              gen := gen W1; keygens := keygens W1 |})
      end
  end.
Proof.
  intros Hpos. unfold Save.
  apply Z.ltb_ge in Hpos. rewrite Hpos.
  destruct (Save_id s session W) as [[session1|err] W1]; [|reflexivity].
  rewrite save_calls.
  destruct (Serialize _ _) as [b|err]; [|reflexivity].
  cbv zeta. destruct (redis.Set_ _ _ _ _ _) as [[e|] c]; reflexivity.
Qed.

(** *** New *)

(** The session [New] starts from once it has read the cookie value
    [id]. *)
Lemma New_with_cookie s r name W (c : http.Cookie) :
  http.Request_Cookie r name = inl c ->
  New s r name W =
  (let '(session, err, W1) := load s (loading s name (http.Value c)) W in
   match err with
   | None => (sessions.with_IsNew false session, None, W1)
   | Some e =>
       if decide (e = redis_Nil) then (session, None, W1)
       else (session, Some e, W1)
   end).
Proof. intros Hc. unfold New. rewrite Hc. reflexivity. Qed.

(** C5: [New] returns a fresh session and no error when nothing is stored.
    Without a cookie of that name the session has [IsNew = true] and an
    empty id, and no command is sent (the world is unchanged); with a
    cookie whose key the cache answers with [redis.Nil], the session has
    [IsNew = true] and the error is [nil]. *)
Theorem New_fresh_session s r name W :
  (forall e : error,
      http.Request_Cookie r name = inr e ->
      exists session,
        New s r name W = (session, None, W) /\
        sessions.IsNew session = true /\
        sessions.ID session = "" /\
        sessions.Values session = ∅) /\
  (forall c : http.Cookie,
      http.Request_Cookie r name = inl c ->
      redis.Err (redis.Get (client s) (keyPrefix s +:+ http.Value c) (cache W)).1
      = Some redis_Nil ->
      exists session W',
        New s r name W = (session, None, W') /\
        sessions.IsNew session = true /\
        sessions.ID session = http.Value c /\
        sessions.Values session = ∅ /\
        calls W' = calls W ++ [redis.GET (keyPrefix s +:+ http.Value c)]).
Proof.
  split.
  - intros e Hc. unfold New. rewrite Hc. eexists. repeat split.
  - intros c Hc Hnil. rewrite (New_with_cookie _ _ _ _ _ Hc).
    unfold load, client_Get, loading. simpl sessions.ID.
    destruct (redis.Get _ _ _) as [[v e] c']. simpl in Hnil. subst e. simpl.
    eexists _, _. repeat split.
Qed.

(** C6: a cookie whose key holds a blob that the serializer rejects makes
    [New] return the serializer's error.  The error is one the store can
    tell from a cache miss, as the serializer contract asks. *)
Theorem New_corrupt_blob s r name W (c : http.Cookie) (e : error)
  (session' : sessions.Session K V) :
  http.Request_Cookie r name = inl c ->
  redis.Err (redis.Get (client s) (keyPrefix s +:+ http.Value c) (cache W)).1
  = None ->
  Deserialize (serializer s)
    (redis.val (redis.Get (client s) (keyPrefix s +:+ http.Value c) (cache W)).1)
    (loading s name (http.Value c))
  = (session', Some e) ->
  e <> redis_Nil ->
  exists W', New s r name W = (session', Some e, W') /\ (New s r name W).1.2 <> None.
Proof.
  intros Hc Hget Hdec Hne. rewrite (New_with_cookie _ _ _ _ _ Hc).
  unfold load, client_Get, loading in *. simpl sessions.ID.
  destruct (redis.Get _ _ _) as [[v e0] c']. simpl in Hget, Hdec. subst e0.
  simpl. rewrite Hdec.
  destruct (decide (e = redis_Nil)) as [He|_]; [contradiction|].
  eexists. split; [reflexivity | discriminate].
Qed.

(** *** Save *)

(** C7: on the write path [Save] fails without a partial write.  If the
    key generator fails, [Save] returns its own error and has sent nothing
    to the cache and set no cookie; if the serializer fails, [Save] returns
    that error, again with nothing sent and no cookie; if the cache write
    fails, [Save] returns that error and sets no cookie. *)
Theorem Save_failure_atomic s r w session W :
  0 <= sessions.MaxAge (sessions.Opts session) ->
  (forall e : error,
      sessions.ID session = "" ->
      (keyGen s (gen W)).1 = inr e ->
      exists W',
        Save s r w session W =
        (Some (errors_New "redisstore: failed to generate session id"),
         w, session, W') /\
        cache W' = cache W /\ calls W' = calls W) /\
  (forall session1 W1,
      Save_id s session W = (inl session1, W1) ->
      (forall e : error,
          Serialize (serializer s) session1 = inr e ->
          Save s r w session W = (Some e, w, session1, W1) /\
          cache W1 = cache W /\ calls W1 = calls W) /\
      (forall (b : string) (e : error),
          Serialize (serializer s) session1 = inl b ->
          (redis.Set_ (client s) (keyPrefix s +:+ sessions.ID session1) b
             (expiration session1) (cache W1)).1 = Some e ->
          exists W',
            Save s r w session W = (Some e, w, session1, W') /\
            calls W' =
            calls W ++
            [redis.SET (keyPrefix s +:+ sessions.ID session1) b
               (expiration session1)])).
Proof.
  intros Hpos. rewrite (Save_write_path _ _ _ _ _ Hpos).
  destruct (Save_id_frame s session W) as (Hcache & Hcalls & _ & Hgen).
  split.
  - intros e Hid Hkg. destruct (Hgen Hid) as (_ & _ & Hres).
    rewrite Hkg in Hres.
    destruct (Save_id s session W) as [res W1]. simpl in *. subst res.
    eexists. repeat split; assumption.
  - intros session1 W1 Hsid. rewrite Hsid in *. simpl in Hcache, Hcalls.
    split.
    + intros e Hser. rewrite Hser. auto.
    + intros b e Hser Hset. rewrite Hser. cbv zeta. rewrite Hset.
      eexists. split; [reflexivity|]. simpl. rewrite Hcalls. reflexivity.
Qed.

(** [Save] never changes a non-empty id, and does not run the key
    generator for it. *)
Lemma Save_keeps_id s r w session W :
  sessions.ID session <> "" ->
  sessions.ID (Save s r w session W).1.2 = sessions.ID session /\
  gen (Save s r w session W).2 = gen W /\
  keygens (Save s r w session W).2 = keygens W.
Proof.
  intros Hid.
  destruct (Z.lt_ge_cases (sessions.MaxAge (sessions.Opts session)) 0) as [Hn|Hp].
  - rewrite (Save_delete_path _ _ _ _ _ Hn). simpl. auto.
  - rewrite (Save_write_path _ _ _ _ _ Hp).
    destruct (Save_id_frame s session W) as (_ & _ & Hkeep & _).
    rewrite (Hkeep Hid).
    destruct (Serialize _ _) as [b|err]; simpl; auto.
Qed.

(** Every command [Save] sends carries the key of the session it
    returns. *)
Lemma Save_keys s r w session W :
  exists sent : list redis.Call,
    calls (Save s r w session W).2 = calls W ++ sent /\
    Forall (fun c => redis.key_of c =
                     Some (keyPrefix s +:+ sessions.ID (Save s r w session W).1.2))
      sent.
Proof.
  destruct (Z.lt_ge_cases (sessions.MaxAge (sessions.Opts session)) 0) as [Hn|Hp].
  - rewrite (Save_delete_path _ _ _ _ _ Hn). simpl.
    eexists. split; [reflexivity|]. repeat constructor.
  - rewrite (Save_write_path _ _ _ _ _ Hp).
    destruct (Save_id_frame s session W) as (_ & Hcalls & _ & _).
    destruct (Save_id s session W) as [[session1|err] W1]; simpl in Hcalls.
    + destruct (Serialize _ _) as [b|err]; simpl.
      * eexists. rewrite Hcalls. split; [reflexivity|]. repeat constructor.
      * nothing_more Hcalls.
    + simpl. nothing_more Hcalls.
Qed.

(** C9: [load], [delete] and [save] address the cache at [keyPrefix + ID]
    and nowhere else, and so does every command of [Save]; the key
    generator runs at most once per [Save], and only for a session whose id
    is empty; a session with a non-empty id leaves [Save] with that id, so
    a later [Save] of it (whatever the handler changed besides) uses the
    same id and the same key. *)
Theorem cache_key_is_prefix_id s r w session W :
  calls (load s session W).2 =
    calls W ++ [redis.GET (keyPrefix s +:+ sessions.ID session)] /\
  calls (delete s session W).2 =
    calls W ++ [redis.DEL (keyPrefix s +:+ sessions.ID session)] /\
  calls (save s session W).2 =
    calls W ++
    match Serialize (serializer s) session with
    | inl b => [redis.SET (keyPrefix s +:+ sessions.ID session) b
                  (expiration session)]
    | inr _ => []
    end /\
  (exists sent : list redis.Call,
      calls (Save s r w session W).2 = calls W ++ sent /\
      Forall (fun c => redis.key_of c =
                       Some (keyPrefix s +:+ sessions.ID (Save s r w session W).1.2))
        sent) /\
  (keygens (Save s r w session W).2 = keygens W \/
   keygens (Save s r w session W).2 = S (keygens W) /\ sessions.ID session = "") /\
  (sessions.ID session <> "" ->
   sessions.ID (Save s r w session W).1.2 = sessions.ID session /\
   forall r2 w2 (session2 : sessions.Session K V) W2,
     sessions.ID session2 = sessions.ID (Save s r w session W).1.2 ->
     sessions.ID (Save s r2 w2 session2 W2).1.2 = sessions.ID session).
Proof.
  repeat apply conj.
  - apply load_calls.
  - rewrite delete_calls. reflexivity.
  - rewrite save_calls. destruct (Serialize _ _); simpl;
      [reflexivity | rewrite app_nil_r; reflexivity].
  - apply Save_keys.
  - destruct (decide (sessions.ID session = "")) as [He|Hne].
    + destruct (Z.lt_ge_cases (sessions.MaxAge (sessions.Opts session)) 0)
        as [Hn|Hp].
      * left. rewrite (Save_delete_path _ _ _ _ _ Hn). reflexivity.
      * right. split; [|exact He].
        rewrite (Save_write_path _ _ _ _ _ Hp).
        destruct (Save_id_frame s session W) as (_ & _ & _ & Hgen).
        destruct (Hgen He) as (Hk & _ & _).
        destruct (Save_id s session W) as [[session1|err] W1]; simpl in Hk;
          [|exact Hk].
        destruct (Serialize _ _); simpl; exact Hk.
    + left. apply Save_keeps_id. exact Hne.
  - intros Hid. destruct (Save_keeps_id s r w session W Hid) as (Hsame & _).
    split; [exact Hsame|].
    intros r2 w2 session2 W2 H2.
    destruct (Save_keeps_id s r2 w2 session2 W2) as (Hsame2 & _);
      congruence.
Qed.

(** C10: with a max-age of exactly zero [Save] writes.  It runs the key
    generator exactly when the session has no id and takes the id it
    gives; it sends no [DEL] and sets no clearing cookie; either it stops
    before the cache (no id, or the values cannot be serialized), with an
    error and the cache untouched, or it calls the client once, for the
    [SET] of the serialized values at [keyPrefix + ID] with expiration
    zero: the error it returns is the one that call returned and the cache
    is left as that call left it.  When it returns [nil] that [SET] was
    made and succeeded, and one cookie whose value is the id is set; and it
    does return [nil] when id, serializer and cache write succeed. *)
Theorem Save_zero_maxAge s r w session W :
  sessions.MaxAge (sessions.Opts session) = 0 ->
  let '(err, w', session', W') := Save s r w session W in
  (sessions.ID session <> "" ->
   sessions.ID session' = sessions.ID session /\ keygens W' = keygens W) /\
  (sessions.ID session = "" ->
   keygens W' = S (keygens W) /\
   forall id : string, (keyGen s (gen W)).1 = inl id -> sessions.ID session' = id) /\
  (exists sent : list redis.Call,
      calls W' = calls W ++ sent /\
      Forall (fun c => redis.is_DEL c = false) sent) /\
  (exists set : list http.Cookie,
      w' = w ++ set /\ Forall (fun c => ~ http.clears c) set) /\
  (err = None ->
   exists b : string,
     Serialize (serializer s) session' = inl b /\
     redis.Set_ (client s) (keyPrefix s +:+ sessions.ID session') b 0 (cache W)
       = (None, cache W') /\
     calls W' = calls W ++ [redis.SET (keyPrefix s +:+ sessions.ID session') b 0] /\
     w' = w ++ [sessions.NewCookie (sessions.Name session) (sessions.ID session')
                  (sessions.Opts session)]) /\
  (forall session1 W1 (b : string),
      Save_id s session W = (inl session1, W1) ->
      Serialize (serializer s) session1 = inl b ->
      (redis.Set_ (client s) (keyPrefix s +:+ sessions.ID session1) b 0
         (cache W1)).1 = None ->
      err = None) /\
  (err <> None /\ w' = w /\ cache W' = cache W /\ calls W' = calls W \/
   exists b : string,
     Serialize (serializer s) session' = inl b /\
     redis.Set_ (client s) (keyPrefix s +:+ sessions.ID session') b 0 (cache W)
       = (err, cache W') /\
     calls W' = calls W ++ [redis.SET (keyPrefix s +:+ sessions.ID session') b 0]).
Proof.
  intros Hzero.
  assert (Hpos : 0 <= sessions.MaxAge (sessions.Opts session)) by lia.
  rewrite (Save_write_path _ _ _ _ _ Hpos).
  destruct (Save_id_frame s session W) as (Hcache & Hcalls & Hkeep & Hgen).
  pose proof (Save_id_session s session W) as Hsess.
  destruct (Save_id s session W) as [[session1|err0] W1] eqn:Hsid;
    simpl in Hcache, Hcalls, Hgen.
  - destruct (Hsess _ _ eq_refl) as (_ & Hopts & Hname & Hsame).
    assert (Hexp : expiration session1 = 0).
    { unfold expiration. rewrite Hopts, Hzero. reflexivity. }
    assert (Hid1 : sessions.ID session <> "" ->
                   sessions.ID session1 = sessions.ID session /\
                   keygens W1 = keygens W).
    { intros Hne. specialize (Hkeep Hne). injection Hkeep as -> ->. auto. }
    assert (Hid2 : sessions.ID session = "" ->
                   keygens W1 = S (keygens W) /\
                   forall id : string,
                     (keyGen s (gen W)).1 = inl id -> sessions.ID session1 = id).
    { intros He. destruct (Hgen He) as (Hk & _ & Hres). split; [exact Hk|].
      intros id Hkg. rewrite Hkg in Hres. injection Hres as ->. reflexivity. }
    destruct (Serialize (serializer s) session1) as [b|err1] eqn:Hser.
    + cbv zeta. rewrite Hexp, Hcache.
      destruct (redis.Set_ _ _ _ _ _) as [[e|] c] eqn:Hset; simpl.
      * split; [exact Hid1|]. split; [exact Hid2|].
        split; [eexists; rewrite Hcalls; split; [reflexivity|];
                repeat constructor|].
        split; [nothing_more (@eq_refl _ w)|].
        split; [discriminate|].
        split.
        -- intros s1 W1' b' Hs Hser' Hnone.
           injection Hs as Hs1 Hs2. subst s1 W1'.
           rewrite Hser in Hser'. injection Hser' as Hb. subst b'.
           rewrite Hcache, Hset in Hnone. discriminate.
        -- right. exists b. rewrite Hcalls. auto.
      * split; [exact Hid1|]. split; [exact Hid2|].
        split; [eexists; rewrite Hcalls; split; [reflexivity|];
                repeat constructor|].
        split.
        { eexists. split; [reflexivity|]. repeat constructor.
          unfold http.clears. simpl. rewrite Hopts, Hzero. lia. }
        split; [intros _; exists b; rewrite Hcalls, Hname, Hopts; auto|].
        split; [reflexivity|].
        right. exists b. rewrite Hcalls. auto.
    + split; [exact Hid1|]. split; [exact Hid2|].
      split; [nothing_more Hcalls|].
      split; [nothing_more (@eq_refl _ w)|].
      split; [discriminate|].
      split.
      * intros s1 W1' b' Hs Hser'. injection Hs as Hs1 Hs2. subst s1 W1'.
        congruence.
      * left. repeat split; [discriminate | exact Hcache | exact Hcalls].
  - split; [intros Hne; specialize (Hkeep Hne); discriminate|].
    split.
    { intros He. destruct (Hgen He) as (Hk & _ & Hres). split; [exact Hk|].
      intros id Hkg. rewrite Hkg in Hres. discriminate. }
    split; [nothing_more Hcalls|].
    split; [nothing_more (@eq_refl _ w)|].
    split; [discriminate|].
    split; [intros s1 W1' b' Hcontra; discriminate|].
    left. repeat split; [discriminate | exact Hcache | exact Hcalls].
Qed.

End StoreFacts.

(** ** The store over the reference cache *)

Section MemRedisFacts.
Import redstore.
Context {G : Type} `{Countable K} {V : Type}.
Implicit Types (s : RedisStore MemRedis.t G K V) (session : sessions.Session K V).
Implicit Types (W : World MemRedis.t G) (r : http.Request) (w : http.ResponseWriter).

(** A successful [SET] is read back by [GET] until it expires. *)
Lemma Set_then_Get (key b : string) (exp dt : Z) (c c1 : MemRedis.t) :
  MemRedis.Set_ key b exp c = (None, c1) ->
  0 <= dt -> exp <= 0 \/ dt < exp ->
  MemRedis.Get key (MemRedis.advance dt c1) =
  ({| redis.val := b; redis.err := None |}, MemRedis.advance dt c1).
Proof.
  unfold MemRedis.Set_, MemRedis.Get, MemRedis.advance.
  destruct (MemRedis.online c) eqn:Hon; [|discriminate].
  intros [= <-] Hdt Hexp. simpl.
  rewrite lookup_insert_eq. unfold MemRedis.live. simpl.
  destruct (0 <? exp) eqn:Hlt; simpl; [|reflexivity].
  apply Z.ltb_lt in Hlt.
  assert (Hlive : (MemRedis.now c + dt <? MemRedis.now c + exp) = true)
    by (apply Z.ltb_lt; lia).
  rewrite Hlive. reflexivity.
Qed.

(** C1: when [Save] succeeds on the write path, it has set a cookie whose
    value is the session id; a later request that presents this value,
    while the cache entry has not expired, makes [New] return a session
    with [IsNew = false] and the values that were saved.  The serializer
    is one that reads back what it wrote for these values. *)
Theorem Save_then_New s r w session W w1 session1 W1 r2 (c : http.Cookie)
  (dt : Z) W2 :
  client s = MemRedis.client ->
  0 <= sessions.MaxAge (sessions.Opts session) ->
  Save s r w session W = (None, w1, session1, W1) ->
  http.Request_Cookie r2 (sessions.Name session) = inl c ->
  http.Value c = sessions.ID session1 ->
  0 <= dt ->
  expiration session <= 0 \/ dt < expiration session ->
  cache W2 = MemRedis.advance dt (cache W1) ->
  (forall b : string,
      Serialize (serializer s) session1 = inl b ->
      exists t',
        Deserialize (serializer s) b
          (loading s (sessions.Name session) (sessions.ID session1)) = (t', None) /\
        sessions.Values t' = sessions.Values session1) ->
  w1 = http.SetCookie w
         (sessions.NewCookie (sessions.Name session) (sessions.ID session1)
            (sessions.Opts session)) /\
  exists session2 W3,
    New s r2 (sessions.Name session) W2 = (session2, None, W3) /\
    sessions.IsNew session2 = false /\
    sessions.Values session2 = sessions.Values session.
Proof.
  intros Hcl Hpos Hsave Hcookie Hval Hdt Hexp HW2 Hround.
  rewrite (Save_write_path _ _ _ _ _ Hpos) in Hsave.
  pose proof (Save_id_session s session W) as Hsess.
  destruct (Save_id s session W) as [[s1|e1] Wa] eqn:Hsid; [|discriminate].
  destruct (Hsess _ _ eq_refl) as (Hvals & Hopts & Hname & _).
  destruct (Serialize (serializer s) s1) as [b|e1] eqn:Hser; [|discriminate].
  cbv zeta in Hsave.
  destruct (redis.Set_ _ _ _ _ _) as [[e|] c1] eqn:Hset; simpl in Hsave;
    [discriminate|].
  injection Hsave as <- <- <-.
  rewrite Hname, Hopts. split; [reflexivity|].
  destruct (Hround b Hser) as (t' & Hdec & Hvals').
  rewrite (New_with_cookie _ _ _ _ _ Hcookie), Hval.
  unfold load, client_Get.
  rewrite Hcl in Hset |- *. simpl in Hset |- *.
  rewrite HW2. simpl cache.
  assert (Hexp1 : expiration s1 = expiration session).
  { unfold expiration. rewrite Hopts. reflexivity. }
  rewrite Hexp1 in Hset.
  rewrite (Set_then_Get _ _ _ _ _ _ Hset Hdt Hexp). simpl.
  rewrite Hdec. eexists _, _. split; [reflexivity|].
  split; [reflexivity|]. simpl. congruence.
Qed.

End MemRedisFacts.

(** C3, as the code has it: with a max-age strictly below zero, whatever
    the client, [Save] calls the client once, for the delete of
    [keyPrefix + ID]: the error it returns is the one that delete returned,
    the cache is left as the delete left it, no blob is serialized or
    written, the key generator does not run and the session is untouched;
    it sets a clearing cookie when the delete succeeded and no cookie when
    it failed.  Over the reference cache no entry is added or changed
    either way; when the cache can be reached [Save] returns [nil], has
    set the clearing cookie and the entry at the session's key is gone;
    when it cannot be reached [Save] returns that error, sets no cookie and
    the cache is as it was. *)
Theorem Save_negative_removes :
  (forall (R G : Type) `{Countable K} (V : Type)
          (s : redstore.RedisStore R G K V) (r : http.Request)
          (w : http.ResponseWriter) (session : sessions.Session K V)
          (W : redstore.World R G),
      sessions.MaxAge (sessions.Opts session) < 0 ->
      let key := redstore.keyPrefix s +:+ sessions.ID session in
      let res := redis.Del (redstore.client s) key (redstore.cache W) in
      let clear :=
        sessions.NewCookie (sessions.Name session) "" (sessions.Opts session) in
      let '(err, w', session', W') := redstore.Save s r w session W in
      err = res.1 /\
      redstore.cache W' = res.2 /\
      redstore.calls W' = redstore.calls W ++ [redis.DEL key] /\
      redstore.gen W' = redstore.gen W /\
      redstore.keygens W' = redstore.keygens W /\
      session' = session /\
      (err = None -> w' = w ++ [clear] /\ http.clears clear) /\
      (err <> None -> w' = w)) /\
  (forall (G : Type) `{Countable K} (V : Type)
          (s : redstore.RedisStore MemRedis.t G K V) (r : http.Request)
          (w : http.ResponseWriter) (session : sessions.Session K V)
          (W : redstore.World MemRedis.t G),
      sessions.MaxAge (sessions.Opts session) < 0 ->
      redstore.client s = MemRedis.client ->
      let key := redstore.keyPrefix s +:+ sessions.ID session in
      let clear :=
        sessions.NewCookie (sessions.Name session) "" (sessions.Opts session) in
      let '(err, w', session', W') := redstore.Save s r w session W in
      MemRedis.data (redstore.cache W') ⊆ MemRedis.data (redstore.cache W) /\
      (forall k : string,
          k <> key ->
          MemRedis.data (redstore.cache W') !! k =
          MemRedis.data (redstore.cache W) !! k) /\
      if MemRedis.online (redstore.cache W) then
        err = None /\
        w' = w ++ [clear] /\
        MemRedis.data (redstore.cache W') =
          base.delete key (MemRedis.data (redstore.cache W)) /\
        redis.Err (MemRedis.Get key (redstore.cache W')).1 = Some redis_Nil
      else
        err = Some MemRedis.unreachable /\
        w' = w /\
        redstore.cache W' = redstore.cache W).
Proof.
  split.
  - intros R G K ? ? V s r w session W Hneg. cbv zeta.
    rewrite (Save_delete_path _ _ _ _ _ Hneg). cbv zeta.
    destruct (redis.Del _ _ _) as [[e|] c]; simpl.
    + repeat split; try discriminate.
    + repeat split; try exact Hneg. intros Hcontra. contradiction.
  - intros G K ? ? V s r w session W Hneg Hcl. cbv zeta.
    rewrite (Save_delete_path _ _ _ _ _ Hneg). cbv zeta. rewrite Hcl. simpl.
    unfold MemRedis.Del.
    destruct (MemRedis.online (redstore.cache W)) eqn:Hon; simpl.
    + split; [apply delete_subseteq|].
      split; [intros k Hk; apply lookup_delete_ne; congruence|].
      repeat split.
      unfold MemRedis.Get. simpl. rewrite lookup_delete_eq. reflexivity.
    + split; [reflexivity|]. repeat split.
Qed.

(** C4, as the code has it: with a max-age strictly below zero [Save]
    sends exactly one command, the [DEL] of [keyPrefix + ID], so no blob is
    written; when the delete reports no error it sets a cookie with an
    empty value and the session's (negative) max-age and returns [nil];
    when the delete fails it returns that error and sets no cookie.  Over
    the reference cache, deleting a key that is not there is no error, and
    the cookie is cleared all the same. *)
Theorem Save_negative_maxAge :
  (forall (R G : Type) `{Countable K} (V : Type)
          (s : redstore.RedisStore R G K V) (r : http.Request)
          (w : http.ResponseWriter) (session : sessions.Session K V)
          (W : redstore.World R G),
      sessions.MaxAge (sessions.Opts session) < 0 ->
      let key := redstore.keyPrefix s +:+ sessions.ID session in
      let res := redis.Del (redstore.client s) key (redstore.cache W) in
      let clear :=
        sessions.NewCookie (sessions.Name session) "" (sessions.Opts session) in
      redstore.Save s r w session W =
      (res.1,
       match res.1 with None => w ++ [clear] | Some _ => w end,
       session,
       {| redstore.cache := res.2;
          redstore.calls := redstore.calls W ++ [redis.DEL key];
          redstore.gen := redstore.gen W;
          redstore.keygens := redstore.keygens W |}) /\
      http.clears clear) /\
  (forall (G : Type) `{Countable K} (V : Type)
          (s : redstore.RedisStore MemRedis.t G K V) (r : http.Request)
          (w : http.ResponseWriter) (session : sessions.Session K V)
          (W : redstore.World MemRedis.t G),
      sessions.MaxAge (sessions.Opts session) < 0 ->
      redstore.client s = MemRedis.client ->
      MemRedis.online (redstore.cache W) = true ->
      MemRedis.data (redstore.cache W)
        !! (redstore.keyPrefix s +:+ sessions.ID session) = None ->
      (redstore.Save s r w session W).1.1.1 = None /\
      (redstore.Save s r w session W).1.1.2 =
      w ++ [sessions.NewCookie (sessions.Name session) "" (sessions.Opts session)]).
Proof.
  split.
  - intros R G K ? ? V s r w session W Hneg. cbv zeta.
    rewrite (Save_delete_path _ _ _ _ _ Hneg). split; [reflexivity|].
    split; [reflexivity | exact Hneg].
  - intros G K ? ? V s r w session W Hneg Hcl Hon _.
    rewrite (Save_delete_path _ _ _ _ _ Hneg). cbv zeta. rewrite Hcl. simpl.
    unfold MemRedis.Del. rewrite Hon. simpl. split; reflexivity.
Qed.

(** ** The properties on the scenario *)

Section OnScenario.
Import redstore Scenario.

(** C3, as stated, fails at max-age zero: [Save] returns [nil] having
    written the blob without expiry and sent no [DEL], and the cookie it
    sets carries the id and clears nothing. *)
Lemma Save_zero_maxAge_not_delete :
  let res := Save store req0 [] (fresh 0) W1 in
  let id := sessions.ID res.1.2 in
  sessions.MaxAge (sessions.Opts (fresh 0)) <= 0 /\
  res.1.1.1 = None /\
  calls res.2 = calls W1 ++ [redis.SET ("session:" +:+ id) "u*" 0] /\
  MemRedis.data (cache res.2) !! ("session:" +:+ id) =
    Some {| MemRedis.blob := "u*"; MemRedis.deadline := None |} /\
  res.1.1.2 = [sessions.NewCookie "sid" id (sessions.Opts (fresh 0))] /\
  id <> "" /\
  ~ http.clears (sessions.NewCookie "sid" id (sessions.Opts (fresh 0))).
Proof.
  cbv zeta. repeat apply conj.
  - vm_compute. discriminate.
  - vm_compute. reflexivity.
  - vm_compute. reflexivity.
  - vm_compute. reflexivity.
  - vm_compute. reflexivity.
  - vm_compute. discriminate.
  - unfold http.clears. vm_compute. intros [Hv _]. discriminate.
Qed.

(** C4, as stated, fails when the cache cannot be reached: with max-age
    [-1] [Save] sends the [DEL], returns its error and sets no cookie. *)
Lemma Save_negative_offline_no_clear :
  let res := Save store req0 [] (fresh (-1)) (offline W1) in
  sessions.MaxAge (sessions.Opts (fresh (-1))) < 0 /\
  res.1.1.1 = Some MemRedis.unreachable /\
  res.1.1.2 = [] /\
  calls res.2 = calls W1 ++ [redis.DEL "session:"].
Proof.
  cbv zeta. repeat apply conj; vm_compute; reflexivity.
Qed.

(** The scenario of the specification: a session saved with max-age 10 is
    found again five nanoseconds later. *)
Lemma Save_then_New_witness :
  let saved := Save store req0 [] (fresh 10) W1 in
  saved.1.1.2 =
    http.SetCookie []
      (sessions.NewCookie "sid" (sessions.ID saved.1.2) (sessions.Opts (fresh 10))) /\
  exists session2 W3,
    New store (req "sid" (sessions.ID saved.1.2)) "sid" (later 5 saved.2)
    = (session2, None, W3) /\
    sessions.IsNew session2 = false /\
    sessions.Values session2 = sessions.Values (fresh 10).
Proof.
  cbv zeta.
  apply (Save_then_New store req0 [] (fresh 10) W1
           (Save store req0 [] (fresh 10) W1).1.1.2
           (Save store req0 [] (fresh 10) W1).1.2
           (Save store req0 [] (fresh 10) W1).2
           (req "sid" (sessions.ID (Save store req0 [] (fresh 10) W1).1.2))
           (sessions.NewCookie "sid"
              (sessions.ID (Save store req0 [] (fresh 10) W1).1.2)
              sessions.zeroOptions)
           5
           (later 5 (Save store req0 [] (fresh 10) W1).2)).
  - reflexivity.
  - vm_compute. discriminate.
  - vm_compute. reflexivity.
  - vm_compute. reflexivity.
  - reflexivity.
  - lia.
  - right. vm_compute. reflexivity.
  - reflexivity.
  - intros b Hser. vm_compute in Hser. injection Hser as <-.
    eexists. split; vm_compute; reflexivity.
Defined.

(** The session [abc] deleted from a cache that holds it, and the same
    with the cache out of reach. *)
Lemma Save_negative_removes_witness :
  ((Save store req0 [] (known (-1)) corrupt).1.1.1 = None /\
   (Save store req0 [] (known (-1)) corrupt).1.1.2 =
     [] ++ [sessions.NewCookie "sid" "" (sessions.Opts (known (-1)))] /\
   MemRedis.data (cache (Save store req0 [] (known (-1)) corrupt).2) =
     base.delete "session:abc" (MemRedis.data (cache corrupt)) /\
   redis.Err
     (MemRedis.Get "session:abc"
        (cache (Save store req0 [] (known (-1)) corrupt).2)).1 =
   Some redis_Nil) /\
  ((Save store req0 [] (known (-1)) (offline corrupt)).1.1.1 =
     Some MemRedis.unreachable /\
   (Save store req0 [] (known (-1)) (offline corrupt)).1.1.2 = [] /\
   cache (Save store req0 [] (known (-1)) (offline corrupt)).2 =
     cache (offline corrupt)) /\
  calls (Save store req0 [] (known (-1)) (offline corrupt)).2 =
    calls (offline corrupt) ++ [redis.DEL "session:abc"].
Proof.
  destruct Save_negative_removes as [Hany Hmem].
  pose proof (Hmem Reader ascii _ _ ascii store req0 [] (known (-1)) corrupt
                ltac:(vm_compute; reflexivity) eq_refl) as Hon.
  pose proof (Hmem Reader ascii _ _ ascii store req0 [] (known (-1))
                (offline corrupt) ltac:(vm_compute; reflexivity) eq_refl)
    as Hoff.
  pose proof (Hany MemRedis.t Reader ascii _ _ ascii store req0 []
                (known (-1)) (offline corrupt) ltac:(vm_compute; reflexivity))
    as Hgen.
  cbv zeta in Hon, Hoff, Hgen.
  destruct (Save store req0 [] (known (-1)) corrupt)
    as [[[err1 w1] session1] W1'].
  destruct (Save store req0 [] (known (-1)) (offline corrupt))
    as [[[err2 w2] session2] W2'].
  destruct Hon as (_ & _ & Hon). destruct Hoff as (_ & _ & Hoff).
  destruct Hgen as (_ & _ & Hcalls & _).
  split; [exact Hon|]. split; [exact Hoff|]. exact Hcalls.
Defined.

Lemma Save_negative_maxAge_witness :
  (Save store req0 [] (known (-1)) (offline W1)).1.1.2 = [] /\
  (Save store req0 [] (known (-1)) W1).1.1.1 = None /\
  (Save store req0 [] (known (-1)) W1).1.1.2 =
  [] ++ [sessions.NewCookie "sid" "" (sessions.Opts (known (-1)))].
Proof.
  destruct Save_negative_maxAge as [Hany Hmem].
  split.
  - destruct (Hany MemRedis.t Reader ascii _ _ ascii store req0 []
                (known (-1)) (offline W1)) as [Heq _].
    + vm_compute. reflexivity.
    + rewrite Heq. reflexivity.
  - apply (Hmem Reader ascii _ _ ascii store req0 [] (known (-1)) W1).
    + vm_compute. reflexivity.
    + reflexivity.
    + reflexivity.
    + vm_compute. reflexivity.
Defined.

Lemma New_fresh_session_witness :
  (exists session,
      New store req0 "sid" W1 = (session, None, W1) /\
      sessions.IsNew session = true /\
      sessions.ID session = "" /\
      sessions.Values session = ∅) /\
  (exists session W',
      New store (req "sid" "abc") "sid" W1 = (session, None, W') /\
      sessions.IsNew session = true /\
      sessions.ID session = "abc" /\
      sessions.Values session = ∅ /\
      calls W' = calls W1 ++ [redis.GET "session:abc"]).
Proof.
  split.
  - apply (proj1 (New_fresh_session store req0 "sid" W1) http.ErrNoCookie).
    vm_compute. reflexivity.
  - apply (proj2 (New_fresh_session store (req "sid" "abc") "sid" W1)
             (sessions.NewCookie "sid" "abc" sessions.zeroOptions)).
    + vm_compute. reflexivity.
    + vm_compute. reflexivity.
Defined.

Lemma New_corrupt_blob_witness :
  exists W',
    New store (req "sid" "abc") "sid" corrupt =
    (loading store "sid" "abc", Some (errors_New "unexpected EOF"), W') /\
    (New store (req "sid" "abc") "sid" corrupt).1.2 <> None.
Proof.
  apply (New_corrupt_blob store (req "sid" "abc") "sid" corrupt
           (sessions.NewCookie "sid" "abc" sessions.zeroOptions)).
  - vm_compute. reflexivity.
  - vm_compute. reflexivity.
  - vm_compute. reflexivity.
  - discriminate.
Defined.

Lemma Save_failure_atomic_witness :
  (exists W',
      Save store req0 [] (fresh 10) (dry W1) =
      (Some (errors_New "redisstore: failed to generate session id"),
       [], fresh 10, W') /\
      cache W' = cache (dry W1) /\ calls W' = calls (dry W1)) /\
  (Save store_unencodable req0 [] (known 10) W1 =
   (Some (errors_New "gob: type not registered for interface"), [],
    known 10, W1) /\
   cache W1 = cache W1 /\ calls W1 = calls W1) /\
  (exists W',
      Save store req0 [] (known 10) (offline W1) =
      (Some MemRedis.unreachable, [], known 10, W') /\
      calls W' =
      calls (offline W1) ++
      [redis.SET ("session:" +:+ "abc") "u*" (expiration (known 10))]).
Proof.
  split; [|split].
  - apply (proj1 (Save_failure_atomic store req0 [] (fresh 10) (dry W1)
                    ltac:(vm_compute; discriminate)) io_EOF).
    + reflexivity.
    + reflexivity.
  - apply (proj1 (proj2 (Save_failure_atomic store_unencodable req0 []
                           (known 10) W1 ltac:(vm_compute; discriminate))
                    (known 10) W1 eq_refl)).
    reflexivity.
  - apply (proj2 (proj2 (Save_failure_atomic store req0 [] (known 10)
                           (offline W1) ltac:(vm_compute; discriminate))
                    (known 10) (offline W1) eq_refl) "u*" MemRedis.unreachable).
    + vm_compute. reflexivity.
    + vm_compute. reflexivity.
Defined.

Lemma cache_key_is_prefix_id_witness :
  sessions.ID (Save store req0 [] (known 10) W1).1.2 = "abc" /\
  forall r2 w2 (session2 : sessions.Session ascii ascii) W2,
    sessions.ID session2 = sessions.ID (Save store req0 [] (known 10) W1).1.2 ->
    sessions.ID (Save store r2 w2 session2 W2).1.2 = "abc".
Proof.
  apply (cache_key_is_prefix_id store req0 [] (known 10) W1).
  vm_compute. discriminate.
Defined.

(** A session without id saved with max-age zero: the blob is in the
    cache, without expiry. *)
Lemma Save_zero_maxAge_witness :
  exists b : string,
    Serialize (serializer store) (Save store req0 [] (fresh 0) W1).1.2 = inl b /\
    redis.Set_ (client store)
      (keyPrefix store +:+ sessions.ID (Save store req0 [] (fresh 0) W1).1.2)
      b 0 (cache W1)
    = (None, cache (Save store req0 [] (fresh 0) W1).2) /\
    calls (Save store req0 [] (fresh 0) W1).2 =
      calls W1 ++
      [redis.SET
         (keyPrefix store +:+ sessions.ID (Save store req0 [] (fresh 0) W1).1.2)
         b 0] /\
    (Save store req0 [] (fresh 0) W1).1.1.2 =
      [] ++
      [sessions.NewCookie (sessions.Name (fresh 0))
         (sessions.ID (Save store req0 [] (fresh 0) W1).1.2)
         (sessions.Opts (fresh 0))].
Proof.
  pose proof (Save_zero_maxAge store req0 [] (fresh 0) W1 eq_refl) as Hw.
  destruct (Save store req0 [] (fresh 0) W1) as [[[err w'] session'] W']
    eqn:Hsave.
  destruct Hw as (_ & _ & _ & _ & Hok & _).
  apply Hok.
  apply (f_equal (fun x => x.1.1.1)) in Hsave. vm_compute in Hsave.
  symmetry. exact Hsave.
Defined.

End OnScenario.

(** * Further properties of the store *)

Section DefaultKeyGenMore.
Import DefaultKeyGen.

Lemma map_index_inj (draws1 draws2 : list Z) :
  Forall (fun v => 0 <= v < 63) draws1 ->
  Forall (fun v => 0 <= v < 63) draws2 ->
  List.map (index letters) draws1 = List.map (index letters) draws2 ->
  draws1 = draws2.
Proof.
  intros H1. revert draws2.
  induction H1 as [|v draws1 Hv _ IH]; intros draws2 H2 Heq;
    destruct H2 as [|u draws2 Hu H2]; simpl in Heq; try discriminate.
  - reflexivity.
  - injection Heq as Hhead Htail.
    f_equal; [exact (index_letters_inj v u Hv Hu Hhead) | exact (IH _ H2 Htail)].
Qed.

(** Two runs of the default generator return the same identifier only if
    the source gave them the same 64 draws: identifiers collide only when
    the entropy does. *)
Theorem keyGen_injective (draws1 draws2 : list Z) (rest1 rest2 : Reader) :
  length draws1 = 64%nat -> length draws2 = 64%nat ->
  Forall (fun v => 0 <= v < 63) draws1 ->
  Forall (fun v => 0 <= v < 63) draws2 ->
  (keyGen (List.map inl draws1 ++ rest1)).1 =
  (keyGen (List.map inl draws2 ++ rest2)).1 ->
  draws1 = draws2.
Proof.
  intros Hl1 Hl2 Hr1 Hr2. rewrite !keyGen_indices by assumption. simpl.
  intros [= Heq]. apply string_of_list_ascii_inj in Heq.
  exact (map_index_inj _ _ Hr1 Hr2 Heq).
Qed.

Lemma keyGen_injective_witness : seqZ 0 63 ++ [5] = seqZ 0 63 ++ [5].
Proof.
  apply (keyGen_injective (seqZ 0 63 ++ [5]) (seqZ 0 63 ++ [5]) [] [inl 7]).
  - reflexivity.
  - reflexivity.
  - apply (bool_decide_unpack _). vm_compute. reflexivity.
  - apply (bool_decide_unpack _). vm_compute. reflexivity.
  - vm_compute. reflexivity.
Defined.

End DefaultKeyGenMore.

Section StoreMore.
Import redstore.
Context {R G : Type} `{Countable K} {V : Type}.
Implicit Types (s : RedisStore R G K V) (session : sessions.Session K V).
Implicit Types (W : World R G) (r : http.Request) (w : http.ResponseWriter).

(** When the cache answers the [GET] with an error other than [redis.Nil]
    (it cannot be reached, the call was cancelled), [New] returns that
    error with the session as it stood before the load: new, without
    values, carrying the cookie's id.  The serializer is not run. *)
Theorem New_cache_error s r name W (c : http.Cookie) (e : error) :
  http.Request_Cookie r name = inl c ->
  redis.Err (redis.Get (client s) (keyPrefix s +:+ http.Value c) (cache W)).1
  = Some e ->
  e <> redis_Nil ->
  New s r name W =
  (loading s name (http.Value c), Some e,
   {| cache := (redis.Get (client s) (keyPrefix s +:+ http.Value c) (cache W)).2;
      calls := calls W ++ [redis.GET (keyPrefix s +:+ http.Value c)];
      gen := gen W; keygens := keygens W |}) /\
  sessions.IsNew (loading s name (http.Value c)) = true /\
  sessions.Values (loading s name (http.Value c)) = ∅.
Proof.
  intros Hc Hget Hne. rewrite (New_with_cookie _ _ _ _ _ Hc).
  unfold load, client_Get, loading. simpl sessions.ID.
  destruct (redis.Get _ _ _) as [[v e0] c']. simpl in Hget. subst e0. simpl.
  destruct (decide (e = redis_Nil)) as [He|_]; [contradiction|].
  repeat split.
Qed.

(** [New] only reads: it sends one [GET] at the key of the cookie's id
    when the request has the cookie and nothing otherwise, and it never
    runs the key generator. *)
Theorem New_only_reads s r name W :
  calls (New s r name W).2 =
    calls W ++
    match http.Request_Cookie r name with
    | inl c => [redis.GET (keyPrefix s +:+ http.Value c)]
    | inr _ => []
    end /\
  gen (New s r name W).2 = gen W /\
  keygens (New s r name W).2 = keygens W.
Proof.
  destruct (http.Request_Cookie r name) as [c|e] eqn:Hc.
  - rewrite (New_with_cookie _ _ _ _ _ Hc).
    destruct (load_calls s (loading s name (http.Value c)) W)
      as (Hcalls & Hgen & Hk).
    destruct (load s _ W) as [[session err] W1]. simpl in Hcalls, Hgen, Hk.
    destruct err as [e|]; [destruct (decide (e = redis_Nil))|]; simpl; auto.
  - unfold New. rewrite Hc. simpl. rewrite app_nil_r. auto.
Qed.

(** The duration handed to the cache is the max-age in nanoseconds as long
    as the product fits a signed 64-bit integer, that is for max-ages up
    to 9223372036 seconds; it is positive for a positive max-age.  The
    bound is sharp: one second more and the product wraps to a negative
    duration. *)
Theorem expiration_exact session :
  (0 <= sessions.MaxAge (sessions.Opts session) <= 9223372036 ->
   expiration session = sessions.MaxAge (sessions.Opts session) * 1000000000 /\
   (0 < sessions.MaxAge (sessions.Opts session) -> 0 < expiration session)) /\
  (sessions.MaxAge (sessions.Opts session) = 9223372037 ->
   expiration session < 0).
Proof.
  unfold expiration, time.mul, time.Duration, time.Second, wrap64. split.
  - intros Hm.
    rewrite (Z.mod_small (sessions.MaxAge (sessions.Opts session) + 2 ^ 63))
      by lia.
    replace (sessions.MaxAge (sessions.Opts session) + 2 ^ 63 - 2 ^ 63)
      with (sessions.MaxAge (sessions.Opts session)) by lia.
    rewrite Z.mod_small by lia. lia.
  - intros ->. vm_compute. reflexivity.
Qed.

(** On the write path [Save] returns [nil] only after the client's [SET]
    of the serialized values at [keyPrefix + ID] with the session's
    expiration has returned no error; the cache is then as that call left
    it, and [Save] has set exactly one cookie, named after the session,
    with the id as value and the session's options; values and options of
    the session are as they were.  When it fails it has set no cookie. *)
Theorem Save_write_success s r w session W :
  0 <= sessions.MaxAge (sessions.Opts session) ->
  let '(err, w', session', W') := Save s r w session W in
  (err = None ->
   exists b : string,
     Serialize (serializer s) session' = inl b /\
     redis.Set_ (client s) (keyPrefix s +:+ sessions.ID session') b
       (expiration session) (cache W) = (None, cache W') /\
     calls W' =
       calls W ++
       [redis.SET (keyPrefix s +:+ sessions.ID session') b (expiration session)] /\
     w' = w ++ [sessions.NewCookie (sessions.Name session)
                  (sessions.ID session') (sessions.Opts session)] /\
     sessions.Values session' = sessions.Values session /\
     sessions.Opts session' = sessions.Opts session) /\
  (err <> None -> w' = w).
Proof.
  intros Hpos. rewrite (Save_write_path _ _ _ _ _ Hpos).
  destruct (Save_id_frame s session W) as (Hcache & Hcalls & _ & _).
  pose proof (Save_id_session s session W) as Hsess.
  destruct (Save_id s session W) as [[session1|err0] W1];
    simpl in Hcache, Hcalls.
  - destruct (Hsess _ _ eq_refl) as (Hvals & Hopts & Hname & _).
    assert (Hexp : expiration session1 = expiration session).
    { unfold expiration. rewrite Hopts. reflexivity. }
    destruct (Serialize (serializer s) session1) as [b|err1] eqn:Hser.
    + cbv zeta. rewrite Hexp, Hcache.
      destruct (redis.Set_ _ _ _ _ _) as [[e|] c] eqn:Hset; simpl.
      * split; [discriminate | reflexivity].
      * split; [|intros Hcontra; contradiction].
        intros _. exists b. rewrite Hcalls, Hname, Hopts.
        repeat split; assumption.
    + split; [discriminate | reflexivity].
  - split; [discriminate | reflexivity].
Qed.

End StoreMore.

Section GobStoreMore.
Import redstore.
Context {R G : Type} `{Countable K} {V : Type}.
Variable gob_Encode : gmap K V -> result string.
Variable gob_Decode : string -> gmap K V -> gmap K V * option error.
Implicit Types (s : RedisStore R G K V) (W : World R G) (r : http.Request).

(** With [GobSerializer], whatever happens [New] returns a session with
    the name asked for, the store's options and the cookie's id (empty
    without cookie); the session is marked as not new exactly when the
    request had the cookie, the [GET] gave a blob and gob decoded it into
    the empty map, and then the values are what gob decoded and the error
    is [nil]. *)
Theorem New_GobSerializer_session s r name W :
  serializer s = GobSerializer gob_Encode gob_Decode ->
  let '(session, err, W') := New s r name W in
  sessions.Name session = name /\
  sessions.Opts session = options s /\
  sessions.ID session =
    match http.Request_Cookie r name with
    | inl c => http.Value c
    | inr _ => ""
    end /\
  (sessions.IsNew session = false <->
   exists c : http.Cookie,
     http.Request_Cookie r name = inl c /\
     let cmd := (redis.Get (client s) (keyPrefix s +:+ http.Value c) (cache W)).1 in
     redis.Err cmd = None /\ (gob_Decode (redis.val cmd) ∅).2 = None) /\
  (sessions.IsNew session = false ->
   err = None /\
   forall c : http.Cookie,
     http.Request_Cookie r name = inl c ->
     sessions.Values session =
     (gob_Decode
        (redis.val (redis.Get (client s) (keyPrefix s +:+ http.Value c) (cache W)).1)
        ∅).1).
Proof.
  intros Hser.
  destruct (http.Request_Cookie r name) as [c|e] eqn:Hc.
  - rewrite (New_with_cookie _ _ _ _ _ Hc).
    unfold load, client_Get, loading. rewrite Hser. simpl.
    destruct (redis.Get (client s) (keyPrefix s +:+ http.Value c) (cache W))
      as [[v [e|]] c'] eqn:Hget; simpl.
    + destruct (decide (e = redis_Nil)); simpl;
        (refine (conj _ (conj _ (conj _ (conj _ _)))); auto;
         [ split; [discriminate|];
           intros (c0 & Hc0 & Hrest); injection Hc0 as <-;
           rewrite Hget in Hrest; destruct Hrest as [He _]; discriminate
         | discriminate ]).
    + destruct (gob_Decode v ∅) as [m [e|]] eqn:Hdec; simpl.
      * destruct (decide (e = redis_Nil)); simpl;
          (refine (conj _ (conj _ (conj _ (conj _ _)))); auto;
           [ split; [discriminate|];
             intros (c0 & Hc0 & Hrest); injection Hc0 as <-;
             rewrite Hget in Hrest; destruct Hrest as [_ Hd];
             simpl in Hd; rewrite Hdec in Hd; discriminate
           | discriminate ]).
      * refine (conj _ (conj _ (conj _ (conj _ _)))); auto.
        -- split; [|reflexivity]. intros _. exists c.
           rewrite Hget. simpl. rewrite Hdec. auto.
        -- intros _. split; [reflexivity|]. intros c0 Hc0.
           injection Hc0 as <-. rewrite Hget. simpl. rewrite Hdec. reflexivity.
  - unfold New. rewrite Hc. simpl.
    refine (conj _ (conj _ (conj _ (conj _ _)))); auto.
    + split; [discriminate | intros (c0 & Hc0 & _); discriminate].
    + discriminate.
Qed.

End GobStoreMore.

Section DefaultStoreMore.
Import redstore.
Context {R : Type} `{Countable K} {V : Type}.
Implicit Types (s : RedisStore R Reader K V) (session : sessions.Session K V).
Implicit Types (W : World R Reader) (r : http.Request) (w : http.ResponseWriter).

(** With the default key generator, saving a session that has no id
    either fails in the generator (a read of the source failed, or the
    source ran dry), with the store's error, nothing sent, no cookie and
    the session as it was, or goes on with the identifier the generator
    returned, which has 64 characters, all of [letters].  So a session that
    was saved without error has a non-empty id. *)
Theorem Save_generates_id s r w session W :
  keyGen s = DefaultKeyGen.keyGen ->
  sessions.ID session = "" ->
  0 <= sessions.MaxAge (sessions.Opts session) ->
  let '(err, w', session', W') := Save s r w session W in
  ((exists e : error, DefaultKeyGen.keyGen (gen W) = (inr e, gen W')) /\
   err = Some (errors_New "redisstore: failed to generate session id") /\
   w' = w /\ session' = session /\ calls W' = calls W /\ cache W' = cache W) \/
  (DefaultKeyGen.keyGen (gen W) = (inl (sessions.ID session'), gen W') /\
   String.length (sessions.ID session') = 64%nat /\
   Forall (fun c => c ∈ list_ascii_of_string DefaultKeyGen.letters)
     (list_ascii_of_string (sessions.ID session')) /\
   sessions.ID session' <> "").
Proof.
  intros Hkg Hid Hpos. rewrite (Save_write_path _ _ _ _ _ Hpos).
  destruct (Save_id_frame s session W) as (Hcache & Hcalls & _ & Hgen).
  destruct (Hgen Hid) as (_ & Hg & Hres). rewrite Hkg in Hg, Hres.
  destruct (DefaultKeyGen.keyGen (gen W)) as [[id|e] g] eqn:Hrun;
    simpl in Hg, Hres.
  - destruct (keyGen_is_id _ _ _ Hrun) as [Hlen Hall].
    assert (Hshape :
      forall session1 W1,
        sessions.ID session1 = id ->
        gen W1 = g ->
        (@inl string error id, g) = (inl (sessions.ID session1), gen W1) /\
        String.length (sessions.ID session1) = 64%nat /\
        Forall (fun c => c ∈ list_ascii_of_string DefaultKeyGen.letters)
          (list_ascii_of_string (sessions.ID session1)) /\
        sessions.ID session1 <> "").
    { intros session1 W1 Hid1 HW1. rewrite Hid1, HW1.
      split; [reflexivity|]. split; [exact Hlen|]. split; [exact Hall|].
      intros Hnil. rewrite Hnil in Hlen. discriminate. }
    destruct (Save_id s session W) as [res W1]. simpl in Hg, Hres. subst res.
    destruct (Serialize _ _) as [b|err];
      [|cbv beta iota zeta; right; refine (Hshape _ _ _ _);
        [reflexivity | exact Hg]].
    cbv zeta. destruct (redis.Set_ _ _ _ _ _) as [[e|] c];
      cbv beta iota zeta; right; refine (Hshape _ _ _ _);
      [reflexivity | exact Hg | reflexivity | exact Hg].
  - destruct (Save_id s session W) as [res W1].
    simpl in Hg, Hres, Hcache, Hcalls. subst res.
    left. split; [exists e; rewrite Hg; reflexivity|].
    repeat split; auto.
Qed.

End DefaultStoreMore.

Section MemRedisMore.
Import redstore.
Context {G : Type} `{Countable K} {V : Type}.
Implicit Types (s : RedisStore MemRedis.t G K V) (session : sessions.Session K V).
Implicit Types (W : World MemRedis.t G) (r : http.Request) (w : http.ResponseWriter).

Lemma Set_frame (key value : string) (exp : Z) (c : MemRedis.t) (k : string) :
  k <> key ->
  MemRedis.data (MemRedis.Set_ key value exp c).2 !! k = MemRedis.data c !! k /\
  MemRedis.now (MemRedis.Set_ key value exp c).2 = MemRedis.now c /\
  MemRedis.online (MemRedis.Set_ key value exp c).2 = MemRedis.online c.
Proof.
  intros Hk. unfold MemRedis.Set_.
  destruct (MemRedis.online c) eqn:Hon; simpl; auto.
  rewrite lookup_insert_ne by congruence. auto.
Qed.

Lemma Del_frame (key : string) (c : MemRedis.t) (k : string) :
  k <> key ->
  MemRedis.data (MemRedis.Del key c).2 !! k = MemRedis.data c !! k /\
  MemRedis.now (MemRedis.Del key c).2 = MemRedis.now c /\
  MemRedis.online (MemRedis.Del key c).2 = MemRedis.online c.
Proof.
  intros Hk. unfold MemRedis.Del.
  destruct (MemRedis.online c) eqn:Hon; simpl; auto.
  rewrite lookup_delete_ne by congruence. auto.
Qed.

Lemma Set_again (key value : string) (exp : Z) (c c1 : MemRedis.t) :
  MemRedis.Set_ key value exp c = (None, c1) ->
  MemRedis.Set_ key value exp c1 = (None, c1).
Proof.
  unfold MemRedis.Set_.
  destruct (MemRedis.online c) eqn:Hon; [|discriminate].
  intros [= <-]. simpl. rewrite insert_insert_eq. reflexivity.
Qed.

Lemma Set_then_Get_expired (key b : string) (exp dt : Z) (c c1 : MemRedis.t) :
  MemRedis.Set_ key b exp c = (None, c1) ->
  0 < exp <= dt ->
  MemRedis.Get key (MemRedis.advance dt c1) =
  ({| redis.val := ""; redis.err := Some redis_Nil |}, MemRedis.advance dt c1).
Proof.
  unfold MemRedis.Set_, MemRedis.Get, MemRedis.advance.
  destruct (MemRedis.online c) eqn:Hon; [|discriminate].
  intros [= <-] Hexp. simpl.
  rewrite lookup_insert_eq. unfold MemRedis.live. simpl.
  assert (Hlt : (0 <? exp) = true) by (apply Z.ltb_lt; lia).
  rewrite Hlt. simpl.
  assert (Hdead : (MemRedis.now c + dt <? MemRedis.now c + exp) = false)
    by (apply Z.ltb_ge; lia).
  rewrite Hdead. reflexivity.
Qed.

(** [New] for a cookie whose key the cache does not hold. *)
Lemma New_on_miss s r name W (c : http.Cookie) :
  client s = MemRedis.client ->
  http.Request_Cookie r name = inl c ->
  (MemRedis.Get (keyPrefix s +:+ http.Value c) (cache W)).1 =
  {| redis.val := ""; redis.err := Some redis_Nil |} ->
  exists W',
    New s r name W = (loading s name (http.Value c), None, W').
Proof.
  intros Hcl Hc Hget. rewrite (New_with_cookie _ _ _ _ _ Hc).
  unfold load, client_Get. rewrite Hcl. simpl.
  destruct (MemRedis.Get _ _) as [cmd c']. simpl in Hget. subst cmd. simpl.
  eexists. reflexivity.
Qed.

(** The cache after [Save]: as before, or after one [SET] or one [DEL] at
    the key of the session returned. *)
Lemma Save_cache_steps s r w session W :
  client s = MemRedis.client ->
  cache (Save s r w session W).2 = cache W \/
  (exists (b : string) (exp : Z),
      cache (Save s r w session W).2 =
      (MemRedis.Set_ (keyPrefix s +:+ sessions.ID (Save s r w session W).1.2)
         b exp (cache W)).2) \/
  cache (Save s r w session W).2 =
  (MemRedis.Del (keyPrefix s +:+ sessions.ID (Save s r w session W).1.2)
     (cache W)).2.
Proof.
  intros Hcl.
  destruct (Z.lt_ge_cases (sessions.MaxAge (sessions.Opts session)) 0) as [Hn|Hp].
  - rewrite (Save_delete_path _ _ _ _ _ Hn). cbv zeta. rewrite Hcl. simpl.
    right. right. reflexivity.
  - rewrite (Save_write_path _ _ _ _ _ Hp).
    destruct (Save_id_frame s session W) as (Hcache & _ & _ & _).
    destruct (Save_id s session W) as [[session1|err] W1]; simpl in Hcache.
    + destruct (Serialize _ _) as [b|err]; simpl.
      * rewrite Hcl. simpl. rewrite Hcache. right. left. eauto.
      * left. exact Hcache.
    + simpl. left. exact Hcache.
Qed.

(** [Save] touches no entry of the cache but the one at the key of the
    session it returns, whichever path it takes and whether or not it
    fails; the server clock and its availability are as before. *)
Theorem Save_cache_frame s r w session W (k : string) :
  client s = MemRedis.client ->
  k <> keyPrefix s +:+ sessions.ID (Save s r w session W).1.2 ->
  MemRedis.data (cache (Save s r w session W).2) !! k =
    MemRedis.data (cache W) !! k /\
  MemRedis.now (cache (Save s r w session W).2) = MemRedis.now (cache W) /\
  MemRedis.online (cache (Save s r w session W).2) = MemRedis.online (cache W).
Proof.
  intros Hcl Hk.
  destruct (Save_cache_steps s r w session W Hcl) as [Hsame|[(b & exp & Hset)|Hdel]].
  - rewrite Hsame. auto.
  - rewrite Hset. apply Set_frame. exact Hk.
  - rewrite Hdel. apply Del_frame. exact Hk.
Qed.

(** Saving again what was just saved changes nothing in the cache: the
    second [Save] succeeds, keeps the id, leaves the cache as the first
    one left it and does not run the key generator; it only sets the
    cookie once more. *)
Theorem Save_again s r w session W w1 session1 W1 r' w' :
  client s = MemRedis.client ->
  0 <= sessions.MaxAge (sessions.Opts session) ->
  Save s r w session W = (None, w1, session1, W1) ->
  sessions.ID session1 <> "" ->
  exists W2,
    Save s r' w' session1 W1 =
    (None,
     w' ++ [sessions.NewCookie (sessions.Name session1) (sessions.ID session1)
              (sessions.Opts session1)],
     session1, W2) /\
    cache W2 = cache W1 /\ gen W2 = gen W1 /\ keygens W2 = keygens W1.
Proof.
  intros Hcl Hpos Hsave Hid.
  rewrite (Save_write_path _ _ _ _ _ Hpos) in Hsave.
  pose proof (Save_id_session s session W) as Hsess.
  destruct (Save_id s session W) as [[s1|e1] Wa] eqn:Hsid; [|discriminate].
  destruct (Hsess _ _ eq_refl) as (_ & Hopts & _ & _).
  destruct (Serialize (serializer s) s1) as [b|e1] eqn:Hser; [|discriminate].
  cbv zeta in Hsave.
  destruct (redis.Set_ _ _ _ _ _) as [[e|] c1] eqn:Hset; simpl in Hsave;
    [discriminate|].
  injection Hsave as <- <- <-.
  assert (Hpos1 : 0 <= sessions.MaxAge (sessions.Opts s1)) by (rewrite Hopts; exact Hpos).
  rewrite (Save_write_path _ _ _ _ _ Hpos1).
  destruct (Save_id_frame s s1
              {| cache := c1;
                 calls := calls Wa ++
                          [redis.SET (keyPrefix s +:+ sessions.ID s1) b (expiration s1)];
                 gen := gen Wa; keygens := keygens Wa |})
    as (_ & _ & Hkeep & _).
  rewrite (Hkeep Hid), Hser. cbv zeta. simpl cache.
  rewrite Hcl in Hset |- *. simpl in Hset |- *.
  rewrite (Set_again _ _ _ _ _ Hset). simpl.
  eexists. split; [reflexivity|]. simpl. auto.
Qed.

(** Once the entry has expired the session is gone: after a successful
    [Save] with a positive expiration, a request that presents the id when
    that time has passed gets a new session without values, and no
    error. *)
Theorem Save_then_expired s r w session W w1 session1 W1 r2 (c : http.Cookie)
  (dt : Z) W2 (name : string) :
  client s = MemRedis.client ->
  0 <= sessions.MaxAge (sessions.Opts session) ->
  Save s r w session W = (None, w1, session1, W1) ->
  http.Request_Cookie r2 name = inl c ->
  http.Value c = sessions.ID session1 ->
  0 < expiration session <= dt ->
  cache W2 = MemRedis.advance dt (cache W1) ->
  exists W3,
    New s r2 name W2 = (loading s name (sessions.ID session1), None, W3) /\
    sessions.IsNew (loading s name (sessions.ID session1)) = true /\
    sessions.Values (loading s name (sessions.ID session1)) = ∅.
Proof.
  intros Hcl Hpos Hsave Hcookie Hval Hexp HW2.
  rewrite (Save_write_path _ _ _ _ _ Hpos) in Hsave.
  pose proof (Save_id_session s session W) as Hsess.
  destruct (Save_id s session W) as [[s1|e1] Wa] eqn:Hsid; [|discriminate].
  destruct (Hsess _ _ eq_refl) as (_ & Hopts & _ & _).
  destruct (Serialize (serializer s) s1) as [b|e1] eqn:Hser; [|discriminate].
  cbv zeta in Hsave.
  destruct (redis.Set_ _ _ _ _ _) as [[e|] c1] eqn:Hset; simpl in Hsave;
    [discriminate|].
  injection Hsave as <- <- <-.
  rewrite Hcl in Hset. simpl in Hset.
  assert (Hexp1 : expiration s1 = expiration session).
  { unfold expiration. rewrite Hopts. reflexivity. }
  rewrite Hexp1 in Hset.
  destruct (New_on_miss s r2 name W2 c Hcl Hcookie) as [W3 HNew].
  - rewrite Hval, HW2. simpl cache.
    rewrite (Set_then_Get_expired _ _ _ _ _ _ Hset Hexp). reflexivity.
  - exists W3. rewrite HNew, Hval. repeat split.
Qed.

(** Saving with a negative max-age ends the session: when the cache can be
    reached, any later request that presents the id gets a new session
    without values, and no error. *)
Theorem Save_negative_then_New s r w session W r2 (c : http.Cookie) (dt : Z) W2
  (name : string) :
  client s = MemRedis.client ->
  sessions.MaxAge (sessions.Opts session) < 0 ->
  MemRedis.online (cache W) = true ->
  http.Request_Cookie r2 name = inl c ->
  http.Value c = sessions.ID session ->
  cache W2 = MemRedis.advance dt (cache (Save s r w session W).2) ->
  exists W3,
    New s r2 name W2 = (loading s name (sessions.ID session), None, W3) /\
    sessions.IsNew (loading s name (sessions.ID session)) = true /\
    sessions.Values (loading s name (sessions.ID session)) = ∅.
Proof.
  intros Hcl Hneg Hon Hcookie Hval HW2.
  rewrite (Save_delete_path _ _ _ _ _ Hneg) in HW2. cbv zeta in HW2.
  rewrite Hcl in HW2. simpl in HW2. unfold MemRedis.Del in HW2.
  rewrite Hon in HW2. simpl in HW2.
  destruct (New_on_miss s r2 name W2 c Hcl Hcookie) as [W3 HNew].
  - rewrite Hval, HW2. unfold MemRedis.Get, MemRedis.advance. simpl.
    rewrite lookup_delete_eq. reflexivity.
  - exists W3. rewrite HNew, Hval. repeat split.
Qed.

Lemma Get_agree (key : string) (c c' : MemRedis.t) :
  MemRedis.data c' !! key = MemRedis.data c !! key ->
  MemRedis.now c' = MemRedis.now c ->
  MemRedis.online c' = MemRedis.online c ->
  (MemRedis.Get key c').1 = (MemRedis.Get key c).1.
Proof.
  unfold MemRedis.Get. intros -> -> ->.
  destruct (MemRedis.online c); [|reflexivity].
  destruct (MemRedis.data c !! key) as [e|]; [|reflexivity].
  destruct (MemRedis.live e (MemRedis.now c)); reflexivity.
Qed.

(** What [New] returns is decided by the cookie and by the answer to its
    one [GET]. *)
Lemma New_agree s r name W W' (c : http.Cookie) :
  client s = MemRedis.client ->
  http.Request_Cookie r name = inl c ->
  (MemRedis.Get (keyPrefix s +:+ http.Value c) (cache W')).1 =
  (MemRedis.Get (keyPrefix s +:+ http.Value c) (cache W)).1 ->
  (New s r name W').1 = (New s r name W).1.
Proof.
  intros Hcl Hc Hget. rewrite !(New_with_cookie _ _ _ _ _ Hc).
  unfold load, client_Get. rewrite Hcl. simpl.
  destruct (MemRedis.Get _ (cache W')) as [cmd' c1'].
  destruct (MemRedis.Get _ (cache W)) as [cmd c1].
  simpl in Hget. subst cmd'.
  destruct cmd as [v [e|]]; simpl.
  - destruct (decide (e = redis_Nil)); reflexivity.
  - destruct (Deserialize _ _ _) as [t [e|]]; simpl;
      [destruct (decide (e = redis_Nil))|]; reflexivity.
Qed.

(** Sessions do not disturb each other: saving one session, on either
    path and whether or not it fails, does not change what [New] returns
    for a request that presents another id. *)
Theorem Save_leaves_other_sessions s r w session W r2 (c : http.Cookie)
  (name : string) W2 W2' :
  client s = MemRedis.client ->
  http.Request_Cookie r2 name = inl c ->
  keyPrefix s +:+ http.Value c <>
  keyPrefix s +:+ sessions.ID (Save s r w session W).1.2 ->
  cache W2 = cache W ->
  cache W2' = cache (Save s r w session W).2 ->
  (New s r2 name W2').1 = (New s r2 name W2).1.
Proof.
  intros Hcl Hc Hk HW2 HW2'.
  apply (New_agree _ _ _ _ _ _ Hcl Hc).
  rewrite HW2, HW2'.
  destruct (Save_cache_steps s r w session W Hcl)
    as [Hsame|[(b & exp & Hset)|Hdel]].
  - rewrite Hsame. reflexivity.
  - rewrite Hset.
    destruct (Set_frame (keyPrefix s +:+ sessions.ID (Save s r w session W).1.2)
                b exp (cache W) _ Hk) as (Hd & Hn & Ho).
    apply Get_agree; assumption.
  - rewrite Hdel.
    destruct (Del_frame (keyPrefix s +:+ sessions.ID (Save s r w session W).1.2)
                (cache W) _ Hk) as (Hd & Hn & Ho).
    apply Get_agree; assumption.
Qed.

End MemRedisMore.

(** * Properties of the echo glue and of start-up and shutdown *)

Section SkipperFacts.
Context {Val : Type}.
Implicit Types (c : echo.Context Val) (routeNames : list string).

Lemma routes_loop_a (routes : list echo.Route) routeNames :
  echocore_a.routes_loop routes routeNames = true <->
  exists r : echo.Route, r ∈ routes /\ echo.Route_Name r ∈ routeNames.
Proof.
  induction routes as [|r0 routes IH]; simpl.
  - split; [discriminate | intros (r & Hr & _); inversion Hr].
  - destruct (bool_decide (echo.Route_Name r0 ∈ routeNames)) eqn:Hin.
    + apply bool_decide_eq_true in Hin. split; [|reflexivity].
      intros _. exists r0. split; [left | exact Hin].
    + apply bool_decide_eq_false in Hin. rewrite IH. split.
      * intros (r & Hr & Hn). exists r. split; [right; exact Hr | exact Hn].
      * intros (r & Hr & Hn). apply elem_of_cons in Hr as [->|Hr];
          [contradiction | exists r; auto].
Qed.

(** In the version that asks [slices.Contains]: the skipper skips exactly
    when some registered route has one of the names.  Method and path of
    the request at hand play no part. *)
Theorem SkipperRouteName_a_skips routeNames c :
  echocore_a.SkipperRouteName routeNames c = true <->
  exists r : echo.Route, r ∈ echo.Routes c /\ echo.Route_Name r ∈ routeNames.
Proof.
  unfold echocore_a.SkipperRouteName.
  destruct (decide (length routeNames = 0%nat)) as [Hlen|_].
  - destruct routeNames; [|discriminate]. split; [discriminate|].
    intros (r & _ & Hn). inversion Hn.
  - apply routes_loop_a.
Qed.

Lemma names_loop_b routeNames (name : string) :
  echocore_b.names_loop routeNames name = true <-> name ∈ routeNames.
Proof.
  induction routeNames as [|key rest IH]; simpl.
  - split; [discriminate | intros Hn; inversion Hn].
  - destruct (decide (key = name)) as [->|Hne].
    + split; [intros _; left | reflexivity].
    + rewrite IH. split; [intros Hn; right; exact Hn|].
      intros Hn. apply elem_of_cons in Hn as [->|Hn]; [contradiction | exact Hn].
Qed.

Lemma routes_loop_b (routes : list echo.Route) (method path : string) routeNames :
  echocore_b.routes_loop routes method path routeNames = true <->
  exists r : echo.Route,
    r ∈ routes /\ echo.Route_Method r = method /\ echo.Route_Path r = path /\
    echo.Route_Name r ∈ routeNames.
Proof.
  induction routes as [|r0 routes IH]; simpl.
  - split; [discriminate | intros (r & Hr & _); inversion Hr].
  - assert (Hrest :
      (exists r : echo.Route,
          r ∈ routes /\ echo.Route_Method r = method /\
          echo.Route_Path r = path /\ echo.Route_Name r ∈ routeNames) ->
      exists r : echo.Route,
        r ∈ r0 :: routes /\ echo.Route_Method r = method /\
        echo.Route_Path r = path /\ echo.Route_Name r ∈ routeNames).
    { intros (r & Hr & Hm). exists r. split; [right; exact Hr | exact Hm]. }
    destruct (bool_decide (echo.Route_Method r0 = method)) eqn:Hm; simpl.
    + apply bool_decide_eq_true in Hm.
      destruct (bool_decide (echo.Route_Path r0 = path)) eqn:Hp; simpl.
      * apply bool_decide_eq_true in Hp.
        destruct (echocore_b.names_loop routeNames (echo.Route_Name r0)) eqn:Hn.
        -- apply names_loop_b in Hn. split; [|reflexivity].
           intros _. exists r0. repeat split; auto. left.
        -- rewrite IH. split; [exact Hrest|].
           intros (r & Hr & Hrm & Hrp & Hrn).
           apply elem_of_cons in Hr as [->|Hr]; [|exists r; auto].
           apply names_loop_b in Hrn. congruence.
      * apply bool_decide_eq_false in Hp. rewrite IH. split; [exact Hrest|].
        intros (r & Hr & Hrm & Hrp & Hrn).
        apply elem_of_cons in Hr as [->|Hr]; [contradiction | exists r; auto].
    + apply bool_decide_eq_false in Hm. rewrite IH. split; [exact Hrest|].
      intros (r & Hr & Hrm & Hrp & Hrn).
      apply elem_of_cons in Hr as [->|Hr]; [contradiction | exists r; auto].
Qed.

(** In the version with the two loops: the skipper skips exactly when a
    registered route with the method and path of the request has one of
    the names. *)
Theorem SkipperRouteName_b_skips routeNames c :
  echocore_b.SkipperRouteName routeNames c = true <->
  exists r : echo.Route,
    r ∈ echo.Routes c /\
    echo.Route_Method r = echo.Method c /\
    echo.Route_Path r = echo.Path c /\
    echo.Route_Name r ∈ routeNames.
Proof.
  unfold echocore_b.SkipperRouteName.
  destruct (decide (length routeNames = 0%nat)) as [Hlen|_].
  - destruct routeNames; [|discriminate]. split; [discriminate|].
    intros (r & _ & _ & _ & Hn). inversion Hn.
  - apply routes_loop_b.
Qed.

End SkipperFacts.

Section StartUpFacts.
Import echocore.

Lemma Init_app {St : Type} (l1 l2 : list (InitHandler St)) (st : St) :
  Init (l1 ++ l2) st =
  match Init l1 st with
  | (Some err, st') => (Some err, st')
  | (None, st') => Init l2 st'
  end.
Proof.
  revert st. induction l1 as [|h l1 IH]; intros st; simpl.
  - reflexivity.
  - destruct (h st) as [[err|] st']; [reflexivity | apply IH].
Qed.

(** [Init] runs the handlers in order and stops at the first that fails:
    it returns that handler's error, with everything as that handler left
    it, and the handlers after it are not run. *)
Theorem Init_first_error {St : Type} (l1 l2 : list (InitHandler St))
  (h : InitHandler St) (st st1 st2 : St) (e : error) :
  Init l1 st = (None, st1) ->
  h st1 = (Some e, st2) ->
  Init (l1 ++ h :: l2) st = (Some e, st2).
Proof.
  intros H1 Hh. rewrite Init_app, H1. simpl. rewrite Hh. reflexivity.
Qed.

Lemma Init_first_error_witness :
  Init ([fun n : nat => (None, S n); fun n : nat => (None, (2 * n)%nat)]
          ++ (fun n : nat => (Some (errors_New "no database"), n))
          :: [fun n : nat => (None, 0%nat)]) 1%nat
  = (Some (errors_New "no database"), 4%nat).
Proof.
  apply (Init_first_error _ _ _ 1%nat 4%nat 4%nat).
  - reflexivity.
  - reflexivity.
Defined.

(** A level that passes the [log_level] validation is one [GommonLevel]
    knows, and the other way round: on a validated configuration
    [GommonLevel] does not panic.  [IsDebug] holds exactly when the level
    it gives is [DEBUG]. *)
Theorem GommonLevel_validated (cfg : Config) :
  (log_level (Log_Level cfg) = true <->
   exists l : Lvl, GommonLevel cfg = Returns l) /\
  (IsDebug cfg = true <-> GommonLevel cfg = Returns DEBUG).
Proof.
  destruct cfg as [lvl].
  unfold log_level, GommonLevel, IsDebug. simpl.
  rewrite !bool_decide_eq_true, !elem_of_cons, elem_of_nil.
  destruct (decide (lvl = logDebug)) as [Hd|Hd].
  { split; split; eauto. }
  destruct (decide (lvl = logInfo)) as [Hi|Hi].
  { split; split; eauto; [contradiction | discriminate]. }
  destruct (decide (lvl = logWarn)) as [Hw|Hw].
  { split; split; eauto; [contradiction | discriminate]. }
  destruct (decide (lvl = logError)) as [He|He].
  { split; split; eauto 6; [contradiction | discriminate]. }
  split; split.
  - intros [?|[?|[?|[?|[]]]]]; contradiction.
  - intros (l & Hl). discriminate.
  - contradiction.
  - discriminate.
Qed.

End StartUpFacts.

Section MiddlewareFacts.
Import redstore_echo.
Context {R G : Type} `{Countable K} {V : Type}.
Implicit Types (store : redstore.RedisStore R G K V).
Implicit Types (c : echo.Context (Value R G K V)) (W : redstore.World R G).

Lemma getstore_after_Set store c :
  getstore (echo.Set_ c key (StoreValue store)) = Returns (inl store).
Proof.
  unfold getstore, echo.Get, echo.Set_. simpl.
  rewrite lookup_insert_eq. reflexivity.
Qed.

(** Behind the session middleware a handler finds the store: the
    middleware built from a store never panics, it hands the next handler
    the context with the store under the key, and there the package's
    [New] is the store's [New] on the request.  Where the skipper skips,
    the context is passed on untouched, and if it holds no store [New]
    returns the not-found error with a nil session and sends nothing.  A
    nil store makes the construction panic. *)
Theorem Middleware_provides_store store (sk : echo.Context (Value R G K V) -> bool) :
  (exists mw,
      Middleware (Some store) = Returns mw /\
      forall next c W, mw next c W = next (echo.Set_ c key (StoreValue store)) W) /\
  (exists mw,
      MiddlewareWithConfig {| Skipper := Some sk; Store := Some store |}
      = Returns mw /\
      forall next c W,
        (sk c = false ->
         mw next c W = next (echo.Set_ c key (StoreValue store)) W) /\
        (sk c = true -> mw next c W = next c W)) /\
  (forall (name : string) c W,
      New name (echo.Set_ c key (StoreValue store)) W =
      Returns (let '(session, err, W') :=
                 redstore.New store (echo.Request c) name W in
               (Some session, err, W'))) /\
  (forall (name : string) c W,
      echo.Get c key = None ->
      New name c W = Returns (None, Some (errors_New not_found), W)) /\
  (exists msg : string, Middleware (R := R) (G := G) (K := K) (V := V) None = Panics msg).
Proof.
  repeat apply conj.
  - eexists. split; [reflexivity|]. intros next c W. reflexivity.
  - eexists. split; [reflexivity|]. intros next c W. simpl.
    split; intros ->; reflexivity.
  - intros name c W. unfold New. rewrite getstore_after_Set. simpl.
    destruct (redstore.New store (echo.Request c) name W) as [[session err] W'].
    reflexivity.
  - intros name c W Hnone. unfold New, getstore. rewrite Hnone. reflexivity.
  - eexists. reflexivity.
Qed.

End MiddlewareFacts.

Section ShutdownFacts.
Import echocore.
Context {R G : Type} `{Countable K} {V : Type}.
Implicit Types (st : State R G K V).

(** With a temporary directory to clean up, [Shutdown] panics: store,
    Redis client and database are closed and their fields cleared, then
    [logDown(nil, ...)] panics before [os.RemoveAll] is reached, and the
    directory stays. *)
Theorem Shutdown_TmpDir_panics st :
  TmpDir (core st) <> "" ->
  exists (msg : string) (done : list Effect),
    (Shutdown st).1 = Panics msg /\
    TmpDir (core (Shutdown st).2) = TmpDir (core st) /\
    SessStore (core (Shutdown st).2) = None /\
    Redis (core (Shutdown st).2) = None /\
    Gorm (core (Shutdown st).2) = None /\
    effects (Shutdown st).2 = effects st ++ done /\
    forall dir : string, RemoveAll dir ∉ done.
Proof.
  intros Htmp.
  destruct st as [[cfg g rd ss tmp] cn eff]. simpl in Htmp.
  unfold Shutdown, andThen, Shutdown_SessStore, Shutdown_Redis, Shutdown_Gorm,
    Shutdown_TmpDir, log, logDown.
  destruct ss as [store|], rd as [cl|], g as [[[dberr|]]|]; simpl;
    (destruct (decide (tmp = "")) as [He|_]; [contradiction|]); simpl;
    eexists _, _;
    (split; [reflexivity|]); (split; [reflexivity|]);
    (split; [reflexivity|]); (split; [reflexivity|]);
    (split; [reflexivity|]);
    (split;
     [first [rewrite <- ?app_assoc; reflexivity | symmetry; apply app_nil_r]|]);
    intros dir Hin; simpl in Hin;
    repeat (apply elem_of_cons in Hin as [Hin|Hin]; [discriminate|]);
    inversion Hin.
Qed.

(** Without a temporary directory [Shutdown] returns, with store, Redis
    client and database cleared; a second [Shutdown] then does nothing. *)
Theorem Shutdown_once st :
  TmpDir (core st) = "" ->
  (Shutdown st).1 = Returns tt /\
  SessStore (core (Shutdown st).2) = None /\
  Redis (core (Shutdown st).2) = None /\
  Gorm (core (Shutdown st).2) = None /\
  TmpDir (core (Shutdown st).2) = "" /\
  Shutdown (Shutdown st).2 = (Returns tt, (Shutdown st).2).
Proof.
  intros Htmp.
  destruct st as [[cfg g rd ss tmp] cn eff]. simpl in Htmp. subst tmp.
  unfold Shutdown, andThen, Shutdown_SessStore, Shutdown_Redis, Shutdown_Gorm,
    Shutdown_TmpDir, log, logDown.
  destruct ss as [store|], rd as [cl|], g as [[[dberr|]]|]; simpl;
    repeat split.
Qed.

(** When both the session store and the Redis client are set, [Shutdown]
    closes the connection twice: once through the store's client, then
    through the core's. *)
Theorem Shutdown_closes_twice st store (cl : redis.UniversalClient R) :
  SessStore (core st) = Some store ->
  Redis (core st) = Some cl ->
  conn (Shutdown st).2 =
    (redis.Close cl (redis.Close (redstore.client store) (conn st)).2).2 /\
  exists rest : list Effect,
    effects (Shutdown st).2 = effects st ++ CloseStore :: CloseRedis :: rest.
Proof.
  intros Hss Hrd.
  destruct st as [[cfg g rd ss tmp] cn eff]. simpl in Hss, Hrd. subst ss rd.
  unfold Shutdown, andThen, Shutdown_SessStore, Shutdown_Redis, Shutdown_Gorm,
    Shutdown_TmpDir, log, logDown.
  destruct g as [[[dberr|]]|]; simpl;
    destruct (decide (tmp = "")); simpl;
    (split; [reflexivity|]); eexists; rewrite <- ?app_assoc; reflexivity.
Qed.

End ShutdownFacts.

(** * The further properties on the scenario *)

Section MoreOnScenario.
Import redstore Scenario Examples.

Lemma New_cache_error_witness :
  (New store (req "sid" "abc") "sid" (offline W1)).1 =
  (loading store "sid" "abc", Some MemRedis.unreachable).
Proof.
  destruct (New_cache_error store (req "sid" "abc") "sid" (offline W1)
              (sessions.NewCookie "sid" "abc" sessions.zeroOptions)
              MemRedis.unreachable) as (Heq & _).
  - vm_compute. reflexivity.
  - vm_compute. reflexivity.
  - discriminate.
  - rewrite Heq. reflexivity.
Defined.

Lemma expiration_exact_witness :
  expiration (fresh 10) = 10 * 1000000000 /\ 0 < expiration (fresh 10).
Proof.
  destruct (proj1 (expiration_exact (fresh 10))) as [Heq Hpos].
  - vm_compute. split; discriminate.
  - split; [exact Heq | apply Hpos; vm_compute; reflexivity].
Defined.

Lemma Save_write_success_witness :
  exists b : string,
    Serialize (serializer store) (Save store req0 [] (fresh 10) W1).1.2 = inl b /\
    redis.Set_ (client store)
      (keyPrefix store +:+ sessions.ID (Save store req0 [] (fresh 10) W1).1.2)
      b (expiration (fresh 10)) (cache W1)
    = (None, cache (Save store req0 [] (fresh 10) W1).2) /\
    calls (Save store req0 [] (fresh 10) W1).2 =
      calls W1 ++
      [redis.SET
         (keyPrefix store +:+ sessions.ID (Save store req0 [] (fresh 10) W1).1.2)
         b (expiration (fresh 10))].
Proof.
  pose proof (Save_write_success store req0 [] (fresh 10) W1
                ltac:(vm_compute; discriminate)) as Hw.
  destruct (Save store req0 [] (fresh 10) W1) as [[[err w'] session'] W']
    eqn:Hsave.
  destruct Hw as [Hok _].
  destruct Hok as (b & Hser & Hset & Hcalls & _).
  - apply (f_equal (fun x => x.1.1.1)) in Hsave. vm_compute in Hsave.
    symmetry. exact Hsave.
  - exists b. split; [exact Hser|]. split; [exact Hset | exact Hcalls].
Defined.

Lemma New_GobSerializer_session_witness :
  sessions.Name (New store (req "sid" "abc") "sid" corrupt).1.1 = "sid" /\
  sessions.Opts (New store (req "sid" "abc") "sid" corrupt).1.1 = options store.
Proof.
  pose proof (New_GobSerializer_session PairCodec.Encode PairCodec.Decode
                store (req "sid" "abc") "sid" corrupt eq_refl) as Hw.
  destruct (New store (req "sid" "abc") "sid" corrupt) as [[session err] W'].
  destruct Hw as (Hname & Hopts & _). split; assumption.
Defined.

Lemma Save_generates_id_witness :
  String.length (sessions.ID (Save store req0 [] (fresh 10) W1).1.2) = 64%nat.
Proof.
  pose proof (Save_generates_id store req0 [] (fresh 10) W1 eq_refl eq_refl
                ltac:(vm_compute; discriminate)) as Hw.
  destruct (Save store req0 [] (fresh 10) W1) as [[[err w'] session'] W']
    eqn:Hsave.
  destruct Hw as [(_ & Herr & _)|(_ & Hlen & _)].
  - apply (f_equal (fun x => x.1.1.1)) in Hsave. vm_compute in Hsave.
    simpl in Herr. rewrite Herr in Hsave. discriminate.
  - exact Hlen.
Defined.

Lemma Save_cache_frame_witness :
  MemRedis.data (cache (Save store req0 [] (known 10) corrupt).2) !! "session:xyz"
  = MemRedis.data (cache corrupt) !! "session:xyz".
Proof.
  apply (Save_cache_frame store req0 [] (known 10) corrupt "session:xyz").
  - reflexivity.
  - vm_compute. discriminate.
Defined.

Lemma Save_leaves_other_sessions_witness :
  (New store (req "sid" "abc") "sid" (Save store req0 [] (fresh 10) corrupt).2).1
  = (New store (req "sid" "abc") "sid" corrupt).1.
Proof.
  apply (Save_leaves_other_sessions store req0 [] (fresh 10) corrupt
           (req "sid" "abc")
           (sessions.NewCookie "sid" "abc" sessions.zeroOptions)).
  - reflexivity.
  - vm_compute. reflexivity.
  - vm_compute. discriminate.
  - reflexivity.
  - reflexivity.
Defined.

Lemma Save_again_witness :
  exists W2,
    Save store req0 [] (Save store req0 [] (fresh 10) W1).1.2
      (Save store req0 [] (fresh 10) W1).2 =
    (None,
     [] ++ [sessions.NewCookie
              (sessions.Name (Save store req0 [] (fresh 10) W1).1.2)
              (sessions.ID (Save store req0 [] (fresh 10) W1).1.2)
              (sessions.Opts (Save store req0 [] (fresh 10) W1).1.2)],
     (Save store req0 [] (fresh 10) W1).1.2, W2) /\
    cache W2 = cache (Save store req0 [] (fresh 10) W1).2 /\
    gen W2 = gen (Save store req0 [] (fresh 10) W1).2 /\
    keygens W2 = keygens (Save store req0 [] (fresh 10) W1).2.
Proof.
  apply (Save_again store req0 [] (fresh 10) W1
           (Save store req0 [] (fresh 10) W1).1.1.2).
  - reflexivity.
  - vm_compute. discriminate.
  - vm_compute. reflexivity.
  - vm_compute. discriminate.
Defined.

Lemma Save_then_expired_witness :
  exists W3,
    New store (req "sid" (sessions.ID (Save store req0 [] (fresh 10) W1).1.2))
      "sid" (later 10000000000 (Save store req0 [] (fresh 10) W1).2) =
    (loading store "sid" (sessions.ID (Save store req0 [] (fresh 10) W1).1.2),
     None, W3) /\
    sessions.IsNew
      (loading store "sid" (sessions.ID (Save store req0 [] (fresh 10) W1).1.2))
    = true /\
    sessions.Values
      (loading store "sid" (sessions.ID (Save store req0 [] (fresh 10) W1).1.2))
    = ∅.
Proof.
  apply (Save_then_expired store req0 [] (fresh 10) W1
           (Save store req0 [] (fresh 10) W1).1.1.2
           (Save store req0 [] (fresh 10) W1).1.2
           (Save store req0 [] (fresh 10) W1).2
           (req "sid" (sessions.ID (Save store req0 [] (fresh 10) W1).1.2))
           (sessions.NewCookie "sid"
              (sessions.ID (Save store req0 [] (fresh 10) W1).1.2)
              sessions.zeroOptions)
           10000000000).
  - reflexivity.
  - vm_compute. discriminate.
  - vm_compute. reflexivity.
  - vm_compute. reflexivity.
  - reflexivity.
  - vm_compute. split; [reflexivity | discriminate].
  - reflexivity.
Defined.

Lemma Save_negative_then_New_witness :
  exists W3,
    New store (req "sid" "abc") "sid"
      (later 7 (Save store req0 [] (known (-1)) corrupt).2) =
    (loading store "sid" "abc", None, W3) /\
    sessions.IsNew (loading store "sid" "abc") = true /\
    sessions.Values (loading store "sid" "abc") = ∅.
Proof.
  apply (Save_negative_then_New store req0 [] (known (-1)) corrupt
           (req "sid" "abc")
           (sessions.NewCookie "sid" "abc" sessions.zeroOptions) 7).
  - reflexivity.
  - vm_compute. reflexivity.
  - reflexivity.
  - vm_compute. reflexivity.
  - reflexivity.
  - reflexivity.
Defined.

Lemma Middleware_provides_store_witness :
  redstore_echo.New "sid" ctx0 W1 =
  Returns (None, Some (errors_New redstore_echo.not_found), W1).
Proof.
  destruct (Middleware_provides_store store echo.DefaultSkipper)
    as (_ & _ & _ & Hmissing & _).
  apply Hmissing. reflexivity.
Defined.

Lemma Shutdown_TmpDir_panics_witness :
  exists (msg : string) (done : list echocore.Effect),
    (echocore.Shutdown (started "/tmp/1")).1 = Panics msg /\
    echocore.TmpDir (echocore.core (echocore.Shutdown (started "/tmp/1")).2)
    = "/tmp/1" /\
    forall dir : string, echocore.RemoveAll dir ∉ done.
Proof.
  destruct (Shutdown_TmpDir_panics (started "/tmp/1"))
    as (msg & done & Hp & Htmp & _ & _ & _ & _ & Hno).
  - discriminate.
  - exists msg, done. repeat split; assumption.
Defined.

Lemma Shutdown_once_witness :
  echocore.Shutdown (echocore.Shutdown (started "")).2 =
  (Returns tt, (echocore.Shutdown (started "")).2).
Proof.
  apply (Shutdown_once (started "")). reflexivity.
Defined.

Lemma Shutdown_closes_twice_witness :
  echocore.conn (echocore.Shutdown (started "")).2 =
  (MemRedis.Close (MemRedis.Close MemRedis.empty).2).2.
Proof.
  apply (Shutdown_closes_twice (started "") store MemRedis.client).
  - reflexivity.
  - reflexivity.
Defined.

End MoreOnScenario.
